(** * The jobs worker of the cluster agent: watch, aggregate, flush

    A shallow embedding of [workers/jobs.go] (package [workers]) and of the
    parts of package [models] it uses, followed by the properties of the
    aggregation pass, of the queue flusher and of the informer callbacks.

    Conventions.
    - Go integers are [Z] with the wrap-around written out ([GoInt.int64]).
    - A float64 is the rational it stands for, and every float64 operation
      rounds its result to 53 significant bits ([float64.round]).
    - A nilable pointer is an [option]; dereferencing [None] panics.
    - Effectful code lives in the monad [Go]: it threads a [World] (work
      queue, clock, backend, trace of observable calls) and ends in a normal
      return, a panic, or a goroutine blocked for ever.
    - A Go map of struct values is a [gmap]: reading a key copies the struct
      out, exactly as [v, ok := m[k]] does in Go. *)

From stdpp Require Import base numbers strings list gmap pretty.
From Stdlib Require Import ZArith QArith Qabs Lia Lqa.

Close Scope Q_scope.
Open Scope Z_scope.

(** ** Machine integers *)

Module GoInt.

Definition wrap (bits : Z) (x : Z) : Z :=
  ((x + 2 ^ (bits - 1)) `mod` 2 ^ bits - 2 ^ (bits - 1))%Z.

(** Conversion to / arithmetic in [int64]. *)
Definition int64 (x : Z) : Z := wrap 64 x.

Definition minInt64 : Z := (- 2 ^ 63)%Z.
Definition maxInt64 : Z := (2 ^ 63 - 1)%Z.

End GoInt.

(** ** The type [float64]

    A float64 is carried as the rational it stands for.  The arithmetic
    rounds every result to the nearest number with a significand of 53 bits,
    ties to the even significand, as IEEE 754 binary64 does.  The exponent
    range is not modelled: the only float64 values of this program are
    seconds computed from an [int64] of nanoseconds, between [1e-9] and
    [1e10] in magnitude, far from overflow and from the subnormal range. *)

Module float64.

(** [x * 2^k] for [k >= 0], and [x] otherwise: the two sides of a comparison
    of [p/d] with [2^k] are [scaled p (-k)] and [scaled d k]. *)
Definition scaled (x k : Z) : Z := x * 2 ^ Z.max 0 k.

(** The integer nearest to [num/den], ties to even. *)
Definition nearestEven (num den : Z) : Z :=
  let q := num / den in
  let r := num `mod` den in
  if 2 * r <? den then q
  else if den <? 2 * r then q + 1
  else if Z.even q then q else q + 1.

(** The binary exponent of [p/d]: the [k] with [2^k <= p/d < 2^(k+1)]. *)
Definition ilog2 (p d : Z) : Z :=
  let k := Z.log2 p - Z.log2 d in
  if scaled p (- k) <? scaled d k then k - 1 else k.

(** [p/d > 0] rounded to 53 significant bits. *)
Definition roundPos (p d : Z) : Q :=
  let e := ilog2 p d - 52 in
  let m := nearestEven (scaled p (- e)) (scaled d e) in
  Qmake (scaled m e) (Z.to_pos (2 ^ Z.max 0 (- e))).

Definition round (x : Q) : Q :=
  match Qnum x with
  | Z0 => 0%Q
  | Zpos p => roundPos (Zpos p) (Zpos (Qden x))
  | Zneg p => (- roundPos (Zpos p) (Zpos (Qden x)))%Q
  end.

(** [float64(z)] of an integer, [a + b] and [a / b] of two float64. *)
Definition of_int (z : Z) : Q := round (inject_Z z).
Definition add (a b : Q) : Q := round (a + b)%Q.
Definition div (a b : Q) : Q := round (a / b)%Q.

(** The unit roundoff [2^-53]. *)
Definition eps : Q := 1 # 9007199254740992.

End float64.

(** ** Package [time]

    An instant is a count of nanoseconds on the time line (Go's [Time] covers
    far more than an [int64] of nanoseconds, so instants are unbounded here);
    a [Duration] is an [int64] count of nanoseconds. *)

Module time.

Definition Time : Type := Z.
Definition Duration : Type := Z.

Definition Second : Z := 1000000000%Z.

(** [t.Sub(u)]: the difference, pinned to the extreme durations when it does
    not fit. *)
Definition Sub (t u : Time) : Duration :=
  let d := (t - u)%Z in
  if (d <? GoInt.minInt64)%Z then GoInt.minInt64
  else if (GoInt.maxInt64 <? d)%Z then GoInt.maxInt64
  else d.

(** [d.Seconds()]:
    [sec := d / Second; nsec := d % Second;
     return float64(sec) + float64(nsec)/1e9],
    with the two conversions, the division and the addition each rounded to
    float64. *)
Definition Seconds (d : Duration) : Q :=
  let sec := d `quot` Second in
  let nsec := d `rem` Second in
  float64.add (float64.of_int sec)
    (float64.div (float64.of_int nsec) (inject_Z 1000000000)).

(** [int64(f)] of a float64: the fractional part is discarded. *)
Definition trunc (f : Q) : Z := (Qnum f `quot` Zpos (Qden f))%Z.

End time.

(** ** Kubernetes API objects *)

Module metav1.

Record ObjectMeta := {
  Name : string;
  Namespace : string;
  ClusterName : string;
  (** [map[string]string], listed in the order the runtime iterates it *)
  Labels : list (string * string);
  Annotations : list (string * string);
}.

End metav1.

Module batchTypes.

Record JobSpec := {
  Parallelism : option Z;            (* *int32 *)
  Completions : option Z;            (* *int32 *)
  ActiveDeadlineSeconds : option Z;  (* *int64 *)
  BackoffLimit : option Z;           (* *int32 *)
}.

Record JobStatus := {
  StartTime : option time.Time;      (* *metav1.Time *)
  CompletionTime : option time.Time; (* *metav1.Time *)
  Active : Z;                        (* int32 *)
  Succeeded : Z;                     (* int32 *)
  Failed : Z;                        (* int32 *)
}.

Record Job := {
  ObjectMeta : metav1.ObjectMeta;
  Spec : JobSpec;
  Status : JobStatus;
}.

End batchTypes.

Module v1.

Record Node := { ObjectMeta : metav1.ObjectMeta }.

End v1.

(** A value of type [interface{}] as the informer hands it around: its dynamic
    type decides every type assertion. *)
Inductive Object :=
| ObjNil
| ObjNode (n : v1.Node)
| ObjJob (j : batchTypes.Job)
| ObjOther (kind : string).

(** ** Package [models] *)

Module m.

Definition ALL : string := "all".
Definition RootPath (component : string) : string :=
  "Server|Component:" +:+ component +:+ "|Custom Metrics|Cluster Stats|".
Definition METRIC_SEPARATOR : string := "|".
Definition METRIC_PATH_NAMESPACES : string := "Namespaces".

(** [AppDBag]: the configuration fields this worker reads (the structure
    holds further connection and labelling strings that it never
    touches). *)
Record AppDBag := {
  AppName : string;
  TierName : string;
  EventAPILimit : Z;       (* int *)
  JobSchemaName : string;
}.

Record AppDMetric := {
  MetricName : string;
  MetricValue : Z;         (* int64 *)
  MetricPath : string;
  MetricAggregationType : string;
}.

Definition NewAppDMetric (name : string) (val : Z) (path : string) : AppDMetric :=
  {| MetricName := name; MetricValue := val; MetricPath := path +:+ name;
     MetricAggregationType := "OBSERVATION" |}.

Record AppDMetricList := { Items : list AppDMetric }.

Definition NewAppDMetricList : AppDMetricList := {| Items := [] |}.

End m.

(** The normalized record of one job, [models.JobSchema]. *)
Module JobSchema.

Record t := mk {
  ClusterName : string;
  Name : string;
  Namespace : string;
  Labels : string;
  Annotations : string;
  Active : Z;                 (* int32 *)
  Success : Z;                (* int32 *)
  Failed : Z;                 (* int32 *)
  StartTime : time.Time;
  EndTime : time.Time;
  Duration : Q;               (* float64 *)
  ActiveDeadlineSeconds : Z;  (* int64 *)
  Completions : Z;            (* int32 *)
  BackoffLimit : Z;           (* int32 *)
  Parallelism : Z;            (* int32 *)
}.

End JobSchema.

(** Modelled from the spec: the constructor [models.NewJobObj] is not part of
    the sources at hand; a normalized record is "created fresh each
    aggregation pass", so it starts with every field at its zero value. *)
Definition NewJobObj : JobSchema.t :=
  JobSchema.mk "" "" "" "" "" 0 0 0 0 0 0%Q 0 0 0 0.

(** One aggregation bucket, [models.ClusterJobMetrics].  It is a struct and
    the worker holds it BY VALUE: the summary map is declared
    [map[string]m.ClusterJobMetrics], and [builAppDMetricsList] has to take
    [&value] of a map value to obtain a [*m.ClusterJobMetrics].  The worker
    increments [int64] counters in it and reflects over its fields, skipping
    [Namespace], [Path] and [Metadata] (the latter is not modelled). *)
Module ClusterJobMetrics.

Record t := mk {
  Path : string;
  Namespace : string;
  JobCount : Z;      (* int64 *)
  ActiveCount : Z;   (* int64 *)
  SuccessCount : Z;  (* int64 *)
  FailedCount : Z;   (* int64 *)
  Duration : Z;      (* int64 *)
}.

Definition zero (path ns : string) : t := mk path ns 0 0 0 0 0.

End ClusterJobMetrics.

(** Modelled from the spec: [models.NewClusterJobMetrics] is not part of the
    sources at hand.  A bucket is "a named aggregation bucket ... holding
    running totals", recreated empty at the start of a pass; its path follows
    the convention root / grouping segment / namespace-or-all. *)
Definition NewClusterJobMetrics (bag : m.AppDBag) (node ns : string)
  : ClusterJobMetrics.t :=
  ClusterJobMetrics.zero
    (m.RootPath (m.TierName bag) +:+ m.METRIC_PATH_NAMESPACES
       +:+ m.METRIC_SEPARATOR +:+ ns +:+ m.METRIC_SEPARATOR)
    ns.

(** ** The world outside the worker and the monad of Go code *)

(** What the worker does that an observer can see, in program order. *)
Inductive Event :=
| EvLog (line : string)                               (* fmt.Print* *)
| EvStartBT (name : string) (bth : nat)               (* AppdController.StartBT *)
| EvStopBT (bth : nat)                                (* AppdController.StopBT *)
| EvPostMetrics (ml : m.AppDMetricList)               (* AppdController.PostMetrics *)
| EvSchemaExists (schema : string) (reply : bool)     (* RestClient.SchemaExists *)
| EvCreateSchema (schema : string)                    (* RestClient.CreateSchema *)
| EvPostAppDEvents (schema : string) (data : list JobSchema.t)
                                                      (* RestClient.PostAppDEvents *)
| EvQueueForget (item : option JobSchema.t)           (* WQ.Forget *)
| EvQueueDone (item : option JobSchema.t).            (* WQ.Done *)

Record World := mkWorld {
  (** the work queue [WQ]: pending items, oldest first, and its shutdown flag *)
  queue : list JobSchema.t;
  shuttingDown : bool;
  (** the stop signal, fired by another goroutine: [Some k] shuts the queue
      down right before the [k]-th next call of [WQ.Get] (counted from 0) *)
  stopIn : option nat;
  (** the wall clock: the instant returned by each successive reading *)
  clock : nat → time.Time;
  clockReads : nat;
  (** the controller's supply of business transaction handles *)
  nextBT : nat;
  (** the events backend: the schemas it holds, and whether it accepts a
      create request *)
  schemas : gset string;
  createOk : bool;
  (** whether [json.Marshal] succeeds on the record batch / on the schema
      definition *)
  marshalDataOk : bool;
  marshalSchemaOk : bool;
  (** everything observed so far, oldest first *)
  trace : list Event;
}.

Definition set_queue (q : list JobSchema.t) (w : World) : World :=
  mkWorld q (shuttingDown w) (stopIn w) (clock w) (clockReads w) (nextBT w)
          (schemas w) (createOk w) (marshalDataOk w) (marshalSchemaOk w) (trace w).
Definition set_shuttingDown (b : bool) (w : World) : World :=
  mkWorld (queue w) b (stopIn w) (clock w) (clockReads w) (nextBT w)
          (schemas w) (createOk w) (marshalDataOk w) (marshalSchemaOk w) (trace w).
Definition set_stopIn (s : option nat) (w : World) : World :=
  mkWorld (queue w) (shuttingDown w) s (clock w) (clockReads w) (nextBT w)
          (schemas w) (createOk w) (marshalDataOk w) (marshalSchemaOk w) (trace w).
Definition set_clockReads (n : nat) (w : World) : World :=
  mkWorld (queue w) (shuttingDown w) (stopIn w) (clock w) n (nextBT w)
          (schemas w) (createOk w) (marshalDataOk w) (marshalSchemaOk w) (trace w).
Definition set_nextBT (n : nat) (w : World) : World :=
  mkWorld (queue w) (shuttingDown w) (stopIn w) (clock w) (clockReads w) n
          (schemas w) (createOk w) (marshalDataOk w) (marshalSchemaOk w) (trace w).
Definition set_schemas (s : gset string) (w : World) : World :=
  mkWorld (queue w) (shuttingDown w) (stopIn w) (clock w) (clockReads w) (nextBT w)
          s (createOk w) (marshalDataOk w) (marshalSchemaOk w) (trace w).
Definition set_trace (t : list Event) (w : World) : World :=
  mkWorld (queue w) (shuttingDown w) (stopIn w) (clock w) (clockReads w) (nextBT w)
          (schemas w) (createOk w) (marshalDataOk w) (marshalSchemaOk w) t.

(** How a piece of Go code ends. *)
Inductive Outcome (A : Type) : Type :=
| Ret (a : A) (w : World)         (* returned normally *)
| Panic (msg : string) (w : World) (* a run-time panic unwinds the goroutine *)
| Blocked (w : World).             (* waits for ever (an empty, open queue) *)
Arguments Ret {A} a w.
Arguments Panic {A} msg w.
Arguments Blocked {A} w.

Definition Go (A : Type) : Type := World → Outcome A.

#[global] Instance Go_ret : MRet Go := λ A a w, Ret a w.
#[global] Instance Go_bind : MBind Go := λ A B f c w,
  match c w with
  | Ret a w' => f a w'
  | Panic msg w' => Panic msg w'
  | Blocked w' => Blocked w'
  end.

Definition world_of {A} (o : Outcome A) : World :=
  match o with Ret _ w | Panic _ w | Blocked w => w end.

Definition returns {A} (o : Outcome A) : bool :=
  match o with Ret _ _ => true | _ => false end.

Definition panics {A} (o : Outcome A) : bool :=
  match o with Panic _ _ => true | _ => false end.

Definition panic {A} (msg : string) : Go A := λ w, Panic msg w.

Definition emit (e : Event) : Go () := λ w, Ret () (set_trace (trace w ++ [e]) w).

(** [*p] on a nilable pointer. *)
Definition deref {A} (p : option A) : Go A :=
  match p with
  | Some a => mret a
  | None => panic "invalid memory address or nil pointer dereference"
  end.

Definition nl : string := String (Ascii.ascii_of_nat 10) EmptyString.

Definition fmt_Printf (s : string) : Go () := emit (EvLog s).
Definition fmt_Println (s : string) : Go () := emit (EvLog (s +:+ nl)).

(** [time.Now()] *)
Definition time_Now : Go time.Time := λ w,
  Ret (clock w (clockReads w)) (set_clockReads (S (clockReads w)) w).

(** [time.Since(t)] is [time.Now().Sub(t)] *)
Definition time_Since (t : time.Time) : Go time.Duration :=
  now ← time_Now; mret (time.Sub now t).

(** *** The controller client [app.ControllerClient] *)

Definition StartBT (name : string) : Go nat := λ w,
  Ret (nextBT w) (set_trace (trace w ++ [EvStartBT name (nextBT w)])
                    (set_nextBT (S (nextBT w)) w)).
Definition StopBT (bth : nat) : Go () := emit (EvStopBT bth).
Definition PostMetrics (ml : m.AppDMetricList) : Go () := emit (EvPostMetrics ml).

(** *** The events client [app.RestClient]

    Modelled from the spec: the client is an external collaborator with the
    three operations schema-exists, create-schema and post-events. *)

Definition SchemaExists (schema : string) : Go bool := λ w,
  let reply := bool_decide (schema ∈ schemas w) in
  Ret reply (set_trace (trace w ++ [EvSchemaExists schema reply]) w).

(** The result is [true] when the client returns a non-nil value. *)
Definition CreateSchema (schema : string) : Go bool := λ w,
  let w' := set_trace (trace w ++ [EvCreateSchema schema]) w in
  if createOk w then Ret true (set_schemas ({[schema]} ∪ schemas w) w')
  else Ret false w'.

Definition PostAppDEvents (schema : string) (data : list JobSchema.t) : Go () :=
  emit (EvPostAppDEvents schema data).

(** *** The work queue [workqueue.RateLimitingInterface]

    Modelled from the spec: the queue is a provided capability with the
    standard work-queue semantics.  [Get] hands out the oldest pending item;
    on an empty queue it waits, unless the queue is shutting down, in which
    case it answers [(nil, true)]: after [ShutDown], [Get] reports shutdown
    only once the queue is drained.  The queue only ever holds non-nil
    [*JobSchema] items. *)

(** [workqueue.NewRateLimitingQueue]: the worker's queue starts empty and
    open. *)
Definition WQ_New : Go () := λ w, Ret () (set_queue [] (set_shuttingDown false w)).

Definition WQ_ShutDown : Go () := λ w, Ret () (set_shuttingDown true w).

(** The other goroutine's move, taken right before a [Get]: when the stop
    signal is due, [Observe] ends and its deferred [WQ.ShutDown] runs. *)
Definition stop_signal (w : World) : World :=
  match stopIn w with
  | None => w
  | Some O => set_stopIn None (set_shuttingDown true w)
  | Some (S k) => set_stopIn (Some k) w
  end.

Definition WQ_Len : Go Z := λ w, Ret (Z.of_nat (length (queue w))) w.

Definition WQ_Get : Go (option JobSchema.t * bool) := λ w,
  let w := stop_signal w in
  match queue w with
  | item :: rest => Ret (Some item, false) (set_queue rest w)
  | [] => if shuttingDown w then Ret (None, true) w else Blocked w
  end.

(** [Forget] and [Done] take the [interface{}] that [Get] returned. *)
Definition WQ_Forget (item : option JobSchema.t) : Go () := emit (EvQueueForget item).
Definition WQ_Done (item : option JobSchema.t) : Go () := emit (EvQueueDone item).

(** *** [encoding/json]: whether marshalling succeeds is up to the world. *)
Definition json_Marshal_records (objList : list JobSchema.t) : Go bool :=
  λ w, Ret (marshalDataOk w) w.
Definition json_Marshal_schemaDef : Go bool :=
  λ w, Ret (marshalSchemaOk w) w.

(** ** Package [workers]: the jobs worker *)

(** The informer, reduced to what the worker asks of it: the cache listing
    and the synced flag. *)
Record SharedIndexInformer := {
  store : list Object;
  synced : bool;
}.

(** [*rest.Config], reduced to the one thing initialization depends on: the
    error, if any, with which [batch.NewForConfig] rejects it. *)
Record RestConfig := { batchClientError : option string }.

Record JobsWorker := mkJobsWorker {
  informer : option SharedIndexInformer;  (* nil until initialized *)
  Bag : m.AppDBag;
  SummaryMap : gmap string ClusterJobMetrics.t;
  K8sConfig : RestConfig;
}.

Definition set_informer (i : option SharedIndexInformer) (pw : JobsWorker) :=
  mkJobsWorker i (Bag pw) (SummaryMap pw) (K8sConfig pw).
Definition set_SummaryMap (sm : gmap string ClusterJobMetrics.t) (pw : JobsWorker) :=
  mkJobsWorker (informer pw) (Bag pw) sm (K8sConfig pw).

(** *** Construction and the informer callbacks *)

Definition initJobInformer (nw : JobsWorker)
  : Go (JobsWorker * option SharedIndexInformer) :=
  match batchClientError (K8sConfig nw) with
  | Some err =>
      fmt_Printf ("Issues when initializing Batch API client/ " +:+ err);;
      mret (nw, None)
  | None =>
      let i := {| store := []; synced := false |} in
      mret (set_informer (Some i) nw, Some i)
  end.

(** [NewJobsWorker] calls [initJobInformer] on its local [pw] through a
    pointer and drops the informer it returns. *)
Definition NewJobsWorker (bag : m.AppDBag) (config : RestConfig) : Go JobsWorker :=
  WQ_New;;
  let pw := mkJobsWorker None bag ∅ config in
  '(pw, _) ← initJobInformer pw;
  mret pw.

(** The assertion of [obj] to [*v1.Node], in its single-result form: it
    panics on any other dynamic type. *)
Definition assertNode (obj : Object) : Go v1.Node :=
  match obj with
  | ObjNode n => mret n
  | _ => panic "interface conversion: interface {} is not *v1.Node"
  end.

Definition onNewJob (nw : JobsWorker) (obj : Object) : Go () :=
  jobObj ← assertNode obj;
  fmt_Printf ("Added Job: " +:+ metav1.Name (v1.ObjectMeta jobObj) +:+ nl).

Definition onDeleteJob (nw : JobsWorker) (obj : Object) : Go () :=
  jobObj ← assertNode obj;
  fmt_Printf ("Deleted Job: " +:+ metav1.Name (v1.ObjectMeta jobObj) +:+ nl).

Definition onUpdateJob (nw : JobsWorker) (objOld objNew : Object) : Go () :=
  jobObj ← assertNode objOld;
  fmt_Printf ("Updated Job: " +:+ metav1.Name (v1.ObjectMeta jobObj) +:+ nl).

Definition HasSynced (pw : JobsWorker) : Go bool :=
  i ← deref (informer pw);
  mret (synced i).

(** *** The aggregation pass *)

(** The [strings.Builder] loop over a label map. *)
Definition joinPairs (kvs : list (string * string)) : string :=
  foldl (λ sb kv, sb +:+ kv.1 +:+ ":" +:+ kv.2 +:+ ";") "" kvs.

Definition processObject (pw : JobsWorker) (j : batchTypes.Job) : Go JobSchema.t :=
  let jobObject := NewJobObj in
  let meta := batchTypes.ObjectMeta j in
  let status := batchTypes.Status j in
  let spec := batchTypes.Spec j in
  let ClusterName :=
    if decide (metav1.ClusterName meta ≠ "") then metav1.ClusterName meta
    else m.AppName (Bag pw) in
  let Labels := joinPairs (metav1.Labels meta) in
  let Annotations := joinPairs (metav1.Annotations meta) in
  StartTime ← deref (batchTypes.StartTime status);
  '(EndTime, Duration) ←
    match batchTypes.CompletionTime status with
    | Some EndTime =>
        mret (EndTime, time.Seconds (time.Sub EndTime StartTime))
    | None =>
        d ← time_Since StartTime;
        mret (JobSchema.EndTime jobObject, time.Seconds d)
    end;
  ActiveDeadlineSeconds ← deref (batchTypes.ActiveDeadlineSeconds spec);
  Completions ← deref (batchTypes.Completions spec);
  BackoffLimit ← deref (batchTypes.BackoffLimit spec);
  Parallelism ← deref (batchTypes.Parallelism spec);
  mret (JobSchema.mk ClusterName (metav1.Name meta) (metav1.Namespace meta)
          Labels Annotations
          (batchTypes.Active status) (batchTypes.Succeeded status)
          (batchTypes.Failed status)
          StartTime EndTime Duration
          ActiveDeadlineSeconds Completions BackoffLimit Parallelism).

(** The counter updates of [summarize], applied to a bucket held in a local
    variable:  [JobCount++], then [+=] of the record's counts and duration. *)
Definition bump (s : ClusterJobMetrics.t) (jobObject : JobSchema.t)
  : ClusterJobMetrics.t :=
  ClusterJobMetrics.mk
    (ClusterJobMetrics.Path s) (ClusterJobMetrics.Namespace s)
    (GoInt.int64 (ClusterJobMetrics.JobCount s + 1))
    (GoInt.int64 (ClusterJobMetrics.ActiveCount s
                  + GoInt.int64 (JobSchema.Active jobObject)))
    (GoInt.int64 (ClusterJobMetrics.SuccessCount s
                  + GoInt.int64 (JobSchema.Success jobObject)))
    (GoInt.int64 (ClusterJobMetrics.FailedCount s
                  + GoInt.int64 (JobSchema.Failed jobObject)))
    (GoInt.int64 (ClusterJobMetrics.Duration s
                  + GoInt.int64 (time.trunc (JobSchema.Duration jobObject)))).

(** [v, ok := m[k]; if !ok { v = fresh; m[k] = v }]: the bucket now in the
    local variable, and the map. *)
Definition lookupOrCreate (k : string) (fresh : ClusterJobMetrics.t)
    (sm : gmap string ClusterJobMetrics.t)
  : ClusterJobMetrics.t * gmap string ClusterJobMetrics.t :=
  match sm !! k with
  | Some v => (v, sm)
  | None => (fresh, <[k := fresh]> sm)
  end.

(** [summarize].  [SummaryMap] maps to struct values, so [summary] and
    [summaryNS] are copies; the function updates the two locals and ends
    without storing them back.  The result is the worker (whose map only
    gained the freshly created buckets) together with the final values of the
    two locals. *)
Definition summarize (pw : JobsWorker) (jobObject : JobSchema.t)
  : JobsWorker * (ClusterJobMetrics.t * ClusterJobMetrics.t) :=
  (* global metrics *)
  let '(summary, sm) :=
    lookupOrCreate m.ALL (NewClusterJobMetrics (Bag pw) m.ALL m.ALL)
      (SummaryMap pw) in
  (* namespace metrics *)
  let '(summaryNS, sm) :=
    lookupOrCreate (JobSchema.Namespace jobObject)
      (NewClusterJobMetrics (Bag pw) m.ALL (JobSchema.Namespace jobObject)) sm in
  let summary := bump summary jobObject in
  let summaryNS := bump summaryNS jobObject in
  (set_SummaryMap sm pw, (summary, summaryNS)).

Definition addMetricToList (metric : ClusterJobMetrics.t)
    (items : list m.AppDMetric) : list m.AppDMetric :=
  let path := ClusterJobMetrics.Path metric in
  items ++ [ m.NewAppDMetric "JobCount" (ClusterJobMetrics.JobCount metric) path;
            m.NewAppDMetric "ActiveCount" (ClusterJobMetrics.ActiveCount metric) path;
            m.NewAppDMetric "SuccessCount" (ClusterJobMetrics.SuccessCount metric) path;
            m.NewAppDMetric "FailedCount" (ClusterJobMetrics.FailedCount metric) path;
            m.NewAppDMetric "Duration" (ClusterJobMetrics.Duration metric) path ].

(** Go ranges over the map in an unspecified order; the listing order of the
    finite map stands for it. *)
Definition builAppDMetricsList (pw : JobsWorker) : m.AppDMetricList :=
  {| m.Items := foldl (λ items kv, addMetricToList kv.2 items) []
                  (map_to_list (SummaryMap pw)) |}.



(** The assertion of [obj] to [*batchTypes.Job], single-result form. *)
Definition assertJob (obj : Object) : Go batchTypes.Job :=
  match obj with
  | ObjJob j => mret j
  | _ => panic "interface conversion: interface {} is not *v1.Job"
  end.

(** The [for _, obj := range ...List()] loop of [buildAppDMetrics]. *)
Fixpoint rangeStore (pw : JobsWorker) (count : Z) (objs : list Object)
  : Go (JobsWorker * Z) :=
  match objs with
  | [] => mret (pw, count)
  | obj :: objs =>
      jobObject ← assertJob obj;
      jobSchema ← processObject pw jobObject;
      let pw := (summarize pw jobSchema).1 in
      rangeStore pw (GoInt.int64 (count + 1)) objs
  end.

Definition buildAppDMetrics (pw : JobsWorker) : Go JobsWorker :=
  bth ← StartBT "SendJobMetrics";
  let pw := set_SummaryMap ∅ pw in
  fmt_Println "Time to send job metrics. Current cache:";;
  i ← deref (informer pw);
  '(pw, count) ← rangeStore pw 0 (store i);
  fmt_Printf ("Total: " +:+ pretty count +:+ nl);;
  let ml := builAppDMetricsList pw in
  fmt_Printf ("Ready to push " +:+ pretty (length (m.Items ml)) +:+ " metrics" +:+ nl);;
  PostMetrics ml;;
  StopBT bth;;
  mret pw.

(** *** The queue flusher *)

Definition postJobRecords (pw : JobsWorker) (objList : list JobSchema.t) : Go () :=
  let schema := m.JobSchemaName (Bag pw) in
  err_nil ← json_Marshal_records objList;
  e_nil ← json_Marshal_schemaDef;
  fmt_Printf ("Schema def: " +:+ nl);;
  if (err_nil : bool) && (e_nil : bool) then
    exists_ ← SchemaExists schema;
    (if negb exists_ then
       fmt_Printf ("Creating schema. " +:+ schema +:+ nl);;
       created ← CreateSchema schema;
       if (created : bool)
       then fmt_Printf ("Schema " +:+ schema +:+ " created" +:+ nl)
       else mret ()
     else fmt_Printf ("Schema " +:+ schema +:+ " exists" +:+ nl));;
    fmt_Println "About to post records";;
    PostAppDEvents schema objList
  else
    fmt_Printf "Problems when serializing array of pod schemas. ".

(** The assertion of [podRecord] to [*m.JobSchema], single-result form: a nil
    interface value fails it. *)
Definition assertJobSchema (podRecord : option JobSchema.t) : Go JobSchema.t :=
  match podRecord with
  | Some r => mret r
  | None => panic "interface conversion: interface {} is nil, not *models.JobSchema"
  end.

(** [getNextQueueItem].  On the normal path the deferred [Done] runs once the
    result has been evaluated, also when evaluating it panics. *)
Definition getNextQueueItem : Go (JobSchema.t * bool) :=
  '(podRecord, quit) ← WQ_Get;
  if (quit : bool) then
    r ← assertJobSchema podRecord;
    mret (r, false)
  else
    WQ_Forget podRecord;;
    match podRecord with
    | Some r => WQ_Done podRecord;; mret (r, true)
    | None => WQ_Done podRecord;; assertJobSchema podRecord ≫= λ r, mret (r, true)
    end.

(** How the [for count >= 0] loop of [flushQueue] is left. *)
Inductive LoopEnd :=
| Returned    (* by the [return] inside the loop *)
| Exited      (* the loop condition became false *)
| OutOfFuel.  (* the iteration budget of the model ran out *)

Fixpoint flushLoop (fuel : nat) (pw : JobsWorker) (count : Z)
    (objList : list JobSchema.t) : Go LoopEnd :=
  if bool_decide (count >= 0) then
    match fuel with
    | O => mret OutOfFuel
    | S fuel =>
        '(jobRecord, ok) ← getNextQueueItem;
        (* [count] is a non-negative [int] here, so [count - 1] cannot wrap *)
        let count := count - 1 in
        objList ←
          (if (ok : bool) then mret (objList ++ [jobRecord])
           else fmt_Println "Queue shut down";; mret objList);
        if bool_decide (count = 0)
           || bool_decide (Z.of_nat (length objList) >= m.EventAPILimit (Bag pw))
        then
          fmt_Printf ("Sending " +:+ pretty (length objList)
                        +:+ " records to AppD events API" +:+ nl);;
          postJobRecords pw objList;;
          mret Returned
        else flushLoop fuel pw count objList
    end
  else mret Exited.

(** [flushQueue].  The Go function returns nothing; the result here tells
    how it was left.  Every iteration lowers [count] by one and the loop
    returns at the latest when it reaches zero, so [count] iterations are a
    sufficient budget: [flushQueue_spec] shows that the budget never runs
    out. *)
Definition flushQueue (pw : JobsWorker) : Go LoopEnd :=
  bth ← StartBT "FlushJobEventsQueue";
  count ← WQ_Len;
  fmt_Printf ("Flushing the queue of " +:+ pretty count +:+ " records");;
  if bool_decide (count = 0) then mret Returned
  else
    e ← flushLoop (Z.to_nat count) pw count [];
    match e with
    | Exited => StopBT bth;; mret Exited
    | e => mret e
    end.

(** ** Observations used in the statements *)

(** The calls that go over the network to the events backend. *)
Definition is_network (e : Event) : bool :=
  match e with
  | EvSchemaExists _ _ | EvCreateSchema _ | EvPostAppDEvents _ _ => true
  | _ => false
  end.

Definition is_StopBT (e : Event) : bool :=
  match e with EvStopBT _ => true | _ => false end.

Definition network_calls (t : list Event) : list Event := List.filter is_network t.
Definition stopBT_calls (t : list Event) : list Event := List.filter is_StopBT t.

(** The batches handed to [PostAppDEvents], in order. *)
Definition posted (t : list Event) : list (list JobSchema.t) :=
  omap (λ e, match e with EvPostAppDEvents _ data => Some data | _ => None end) t.

(** The line [flushQueue] prints when [getNextQueueItem] reports shutdown. *)
Definition is_shutdownLog (e : Event) : bool :=
  match e with
  | EvLog line => String.eqb line ("Queue shut down" +:+ nl)
  | _ => false
  end.

Definition shutdown_logs (t : list Event) : list Event :=
  List.filter is_shutdownLog t.

(** The world right after [getNextQueueItem] took [item] off the queue: the
    stop signal has had its turn, the item is forgotten and done. *)
Definition afterGet (item : JobSchema.t) (rest : list JobSchema.t) (w : World)
  : World :=
  set_trace (trace w ++ [EvQueueForget (Some item); EvQueueDone (Some item)])
    (set_queue rest (stop_signal w)).

(** The backend calls of a post of [batch] under schema name [schema], given
    the outcome of the two marshalling steps and whether the backend already
    holds the schema. *)
Definition postCalls (dataOk schemaOk known : bool) (schema : string)
    (batch : list JobSchema.t) : list Event :=
  if dataOk && schemaOk then
    if known then [EvSchemaExists schema true; EvPostAppDEvents schema batch]
    else [EvSchemaExists schema false; EvCreateSchema schema;
          EvPostAppDEvents schema batch]
  else [].

(** [w'] continues [w] by events whose backend calls are exactly [net] and
    none of which is a [StopBT] or the shutdown line. *)
Definition continues (w w' : World) (net : list Event) : Prop :=
  ∃ delta,
    trace w' = trace w ++ delta
    ∧ network_calls delta = net
    ∧ stopBT_calls delta = []
    ∧ shutdown_logs delta = [].

(** The number of records one tick takes off a queue of [n] pending items
    when the batch already holds [have] records and the limit is [L]. *)
Definition batchSize (n have : nat) (L : Z) : nat :=
  Nat.min n (Nat.max 1 (Z.to_nat (L - Z.of_nat have))).

(** Whether a stop signal scheduled as [stop] has fired within [k] calls of
    [WQ.Get]. *)
Definition stopFired (stop : option nat) (k : nat) : bool :=
  match stop with
  | Some j => bool_decide (j < k)%nat
  | None => false
  end.

(** The running totals of a bucket. *)
Definition counterFields : list (ClusterJobMetrics.t → Z) :=
  [ ClusterJobMetrics.JobCount; ClusterJobMetrics.ActiveCount;
    ClusterJobMetrics.SuccessCount; ClusterJobMetrics.FailedCount;
    ClusterJobMetrics.Duration ].

(** The per-namespace buckets of a summary map: every entry but the global
    one. *)
Definition namespaceBuckets (sm : gmap string ClusterJobMetrics.t)
  : list (string * ClusterJobMetrics.t) :=
  List.filter (λ kv, negb (bool_decide (kv.1 = m.ALL))) (map_to_list sm).

Definition namespaceSum (field : ClusterJobMetrics.t → Z)
    (sm : gmap string ClusterJobMetrics.t) : Z :=
  foldr (λ kv acc, field kv.2 + acc) 0 (namespaceBuckets sm).

(** The global bucket as Go reads it from the map: the zero-valued struct
    when the key is missing. *)
Definition globalValue (field : ClusterJobMetrics.t → Z)
    (sm : gmap string ClusterJobMetrics.t) : Z :=
  field (default (ClusterJobMetrics.zero "" "") (sm !! m.ALL)).

(** The four counts of a bucket: jobs, active, succeeded, failed. *)
Definition counts (b : ClusterJobMetrics.t) : Z * Z * Z * Z :=
  (ClusterJobMetrics.JobCount b, ClusterJobMetrics.ActiveCount b,
   ClusterJobMetrics.SuccessCount b, ClusterJobMetrics.FailedCount b).

(** Every bucket of the map still is what the constructor returned for its
    key. *)
Definition untouched (bag : m.AppDBag) (sm : gmap string ClusterJobMetrics.t)
  : Prop :=
  ∀ k b, sm !! k = Some b → b = NewClusterJobMetrics bag m.ALL k.

(** Which of the pointers that [processObject] dereferences are set. *)
Definition derefsPresent (j : batchTypes.Job) : bool :=
  bool_decide (is_Some (batchTypes.StartTime (batchTypes.Status j)))
  && bool_decide (is_Some (batchTypes.ActiveDeadlineSeconds (batchTypes.Spec j)))
  && bool_decide (is_Some (batchTypes.Completions (batchTypes.Spec j)))
  && bool_decide (is_Some (batchTypes.BackoffLimit (batchTypes.Spec j)))
  && bool_decide (is_Some (batchTypes.Parallelism (batchTypes.Spec j))).

(** ** The aggregation step as the specification words it

    "fold it into both the global and the namespace summary: increment job
    count; add active/success/failed counts; add duration".  This is the
    reference the code is compared with, not a translation of the code: the
    updated buckets are stored back. *)
Definition summarize_spec (bag : m.AppDBag)
    (sm : gmap string ClusterJobMetrics.t) (jobObject : JobSchema.t)
  : gmap string ClusterJobMetrics.t :=
  let '(summary, sm) :=
    lookupOrCreate m.ALL (NewClusterJobMetrics bag m.ALL m.ALL) sm in
  let sm := <[m.ALL := bump summary jobObject]> sm in
  let ns := JobSchema.Namespace jobObject in
  let '(summaryNS, sm) :=
    lookupOrCreate ns (NewClusterJobMetrics bag m.ALL ns) sm in
  <[ns := bump summaryNS jobObject]> sm.

(** ** Concrete inputs *)

Module Scenario.

Definition bag : m.AppDBag :=
  {| m.AppName := "cluster"; m.TierName := "agent";
     m.EventAPILimit := 10; m.JobSchemaName := "jobs" |}.

Definition bagWithLimit (L : Z) : m.AppDBag :=
  {| m.AppName := "cluster"; m.TierName := "agent";
     m.EventAPILimit := L; m.JobSchemaName := "jobs" |}.

(** A job that started at second 100 and has every optional field set. *)
Definition job (name ns : string) (active succeeded failed : Z)
    (completion : option time.Time) : batchTypes.Job :=
  {| batchTypes.ObjectMeta :=
       {| metav1.Name := name; metav1.Namespace := ns;
          metav1.ClusterName := ""; metav1.Labels := [("app", "batch")];
          metav1.Annotations := [] |};
     batchTypes.Spec :=
       {| batchTypes.Parallelism := Some 1; batchTypes.Completions := Some 1;
          batchTypes.ActiveDeadlineSeconds := Some 600;
          batchTypes.BackoffLimit := Some 6 |};
     batchTypes.Status :=
       {| batchTypes.StartTime := Some 100000000000;
          batchTypes.CompletionTime := completion;
          batchTypes.Active := active; batchTypes.Succeeded := succeeded;
          batchTypes.Failed := failed |} |}.

(** The same job as the platform delivers it when no deadline is set. *)
Definition jobWithoutDeadline : batchTypes.Job :=
  {| batchTypes.ObjectMeta := batchTypes.ObjectMeta (job "j4" "a" 1 0 0 None);
     batchTypes.Spec :=
       {| batchTypes.Parallelism := Some 1; batchTypes.Completions := Some 1;
          batchTypes.ActiveDeadlineSeconds := None;
          batchTypes.BackoffLimit := Some 6 |};
     batchTypes.Status := batchTypes.Status (job "j4" "a" 1 0 0 None) |}.

(** Three jobs in namespaces a, a, b with active 1, 0, 2, succeeded
    0, 1, 0 and failed 0, 0, 1. *)
Definition snapshot : list Object :=
  [ ObjJob (job "j1" "a" 1 0 0 None);
    ObjJob (job "j2" "a" 0 1 0 (Some 160000000000));
    ObjJob (job "j3" "b" 2 0 1 None) ].

Definition config : RestConfig := {| batchClientError := None |}.
Definition brokenConfig : RestConfig :=
  {| batchClientError := Some "invalid configuration" |}.

Definition workerOn (objs : list Object) : JobsWorker :=
  mkJobsWorker (Some {| store := objs; synced := true |}) bag ∅ config.

Definition workerWithLimit (L : Z) : JobsWorker :=
  mkJobsWorker (Some {| store := []; synced := true |}) (bagWithLimit L) ∅ config.

Definition record (name : string) : JobSchema.t :=
  JobSchema.mk "cluster" name "a" "" "" 1 0 0 100000000000 0 (5 # 1)%Q 600 1 6 1.

Definition fiveRecords : list JobSchema.t :=
  [record "r1"; record "r2"; record "r3"; record "r4"; record "r5"].

(** A world whose clock always shows second 130, with the given queue and
    stop schedule; the backend does not hold the schema yet. *)
Definition world (q : list JobSchema.t) (stop : option nat) : World :=
  mkWorld q false stop (λ _, 130000000000) 0 0 ∅ true true true [].

(** The normalized records of the three jobs of [snapshot]. *)
Definition recordOf (j : batchTypes.Job) : JobSchema.t :=
  match processObject (workerOn []) j (world [] None) with
  | Ret r _ => r
  | _ => NewJobObj
  end.

Definition records : list JobSchema.t :=
  [ recordOf (job "j1" "a" 1 0 0 None);
    recordOf (job "j2" "a" 0 1 0 (Some 160000000000));
    recordOf (job "j3" "b" 2 0 1 None) ].

Definition node : v1.Node :=
  {| v1.ObjectMeta := batchTypes.ObjectMeta (job "n1" "" 0 0 0 None) |}.

End Scenario.

(** ** The ticker loops

    Both loops are [for { select { case <-ticker.C: ...; case <-stop: ... } }].
    What the two channels deliver, in the order the [select] receives it, is
    a parameter of the model; when nothing more arrives the goroutine waits
    for ever. *)

Inductive Signal :=
| Tick   (* a value on [ticker.C] *)
| Stop.  (* the stop channel is closed *)

(** [eventQueueTicker]: [flushQueue] on every tick; on stop, [ticker.Stop()]
    and return. *)
Fixpoint eventQueueTicker (pw : JobsWorker) (signals : list Signal) : Go () :=
  match signals with
  | [] => λ w, Blocked w
  | Tick :: signals => flushQueue pw;; eventQueueTicker pw signals
  | Stop :: _ => mret ()
  end.

(** For the metrics loop a tick also tells what the informer's cache holds at
    that moment: the cache is kept up to date by the informer's own goroutine
    between two passes. *)
Inductive CacheSignal :=
| CacheTick (objs : list Object)
| CacheStop.

Definition withStore (objs : list Object) (pw : JobsWorker) : JobsWorker :=
  match informer pw with
  | Some i => set_informer (Some {| store := objs; synced := synced i |}) pw
  | None => pw
  end.

(** [appMetricTicker]: [buildAppDMetrics] on every tick, through the pointer
    receiver, so that the summary map of one pass is what the next pass
    starts from. *)
Fixpoint appMetricTicker (pw : JobsWorker) (signals : list CacheSignal)
  : Go JobsWorker :=
  match signals with
  | [] => λ w, Blocked w
  | CacheTick objs :: signals =>
      pw ← buildAppDMetrics (withStore objs pw);
      appMetricTicker pw signals
  | CacheStop :: _ => mret pw
  end.

(** ** Further observations *)

Definition is_log (e : Event) : bool :=
  match e with EvLog _ => true | _ => false end.

(** Everything in a trace but the printed lines. *)
Definition calls (t : list Event) : list Event :=
  List.filter (λ e, negb (is_log e)) t.

(** The handles handed out by [StartBT], in order. *)
Definition startedBTs (t : list Event) : list nat :=
  omap (λ e, match e with EvStartBT _ bth => Some bth | _ => None end) t.

(** The metric lists handed to [PostMetrics], in order. *)
Definition postedMetrics (t : list Event) : list m.AppDMetricList :=
  omap (λ e, match e with EvPostMetrics ml => Some ml | _ => None end) t.

(** The items passed to [WQ.Forget] and to [WQ.Done], in order. *)
Definition forgotten (t : list Event) : list (option JobSchema.t) :=
  omap (λ e, match e with EvQueueForget item => Some item | _ => None end) t.
Definition markedDone (t : list Event) : list (option JobSchema.t) :=
  omap (λ e, match e with EvQueueDone item => Some item | _ => None end) t.

(** What happens to the records of the queue: the calls of [Forget], [Done]
    and [PostAppDEvents], in order. *)
Definition is_delivery (e : Event) : bool :=
  match e with
  | EvQueueForget _ | EvQueueDone _ | EvPostAppDEvents _ _ => true
  | _ => false
  end.

Definition deliveries (t : list Event) : list Event := List.filter is_delivery t.

(** Taking [items] off the queue one by one: each is forgotten, then done. *)
Definition takenOff (items : list JobSchema.t) : list Event :=
  items ≫= λ r, [EvQueueForget (Some r); EvQueueDone (Some r)].

(** [w'] continues [w] by events whose deliveries are exactly [ds], without
    starting a business transaction and without changing how marshalling
    fares. *)
Definition hands (w w' : World) (ds : list Event) : Prop :=
  ∃ delta,
    trace w' = trace w ++ delta
    ∧ deliveries delta = ds
    ∧ startedBTs delta = []
    ∧ marshalDataOk w' = marshalDataOk w
    ∧ marshalSchemaOk w' = marshalSchemaOk w
    ∧ nextBT w' = nextBT w.

(** An object the aggregation pass gets through: a job with every pointer
    that [processObject] dereferences set. *)
Definition passable (obj : Object) : bool :=
  match obj with
  | ObjJob j => derefsPresent j
  | _ => false
  end.

(** The namespace of a cached job. *)
Definition namespaceOf (obj : Object) : option string :=
  match obj with
  | ObjJob j => Some (metav1.Namespace (batchTypes.ObjectMeta j))
  | _ => None
  end.

(** The names under which [addMetricToList] emits the fields of a bucket. *)
Definition metricFields : list (string * (ClusterJobMetrics.t → Z)) :=
  [ ("JobCount", ClusterJobMetrics.JobCount);
    ("ActiveCount", ClusterJobMetrics.ActiveCount);
    ("SuccessCount", ClusterJobMetrics.SuccessCount);
    ("FailedCount", ClusterJobMetrics.FailedCount);
    ("Duration", ClusterJobMetrics.Duration) ].

(** The size of the batches a run of flush ticks takes: at least one record,
    at most the limit. *)
Definition stride (L : Z) : nat := Nat.max 1 (Z.to_nat L).

(** * Properties *)

Ltac go_unfold :=
  unfold fmt_Printf, fmt_Println, time_Since, StopBT, PostMetrics,
    PostAppDEvents, WQ_Forget, WQ_Done in *;
  unfold mbind, Go_bind, mret, Go_ret, deref, panic, emit, time_Now in *.

(** ** Rounding to float64 *)

Section Rounding.

Import float64.

Lemma pow2_pos (k : Z) : 0 < 2 ^ Z.max 0 k.
Proof. apply Z.pow_pos_nonneg; lia. Qed.

Lemma pow2_split (a b : Z) : 0 <= a -> 0 <= b -> 2 ^ (a + b) = 2 ^ a * 2 ^ b.
Proof. intros. by rewrite Z.pow_add_r. Qed.

Lemma scaled_nonneg_l (x k : Z) : 0 <= k -> scaled x (- k) = x.
Proof. intros. unfold scaled. rewrite Z.max_l by lia. cbn. lia. Qed.

Lemma scaled_nonneg_r (x k : Z) : 0 <= k -> scaled x k = x * 2 ^ k.
Proof. intros. unfold scaled. by rewrite Z.max_r by lia. Qed.

Lemma scaled_neg_l (x k : Z) : k <= 0 -> scaled x (- k) = x * 2 ^ (- k).
Proof. intros. unfold scaled. by rewrite Z.max_r by lia. Qed.

Lemma scaled_neg_r (x k : Z) : k <= 0 -> scaled x k = x.
Proof. intros. unfold scaled. rewrite Z.max_l by lia. cbn. lia. Qed.

(** [ilog2 p d] is the integer [fl] with [2^fl <= p/d < 2^(fl+1)]. *)
Lemma ilog2_spec (p d : Z) :
  0 < p -> 0 < d ->
  scaled d (ilog2 p d) <= scaled p (- ilog2 p d)
  /\ scaled p (- (ilog2 p d + 1)) < scaled d (ilog2 p d + 1).
Proof.
  intros Hp Hd. unfold ilog2.
  destruct (Z.log2_spec p Hp) as [Hp1 Hp2].
  destruct (Z.log2_spec d Hd) as [Hd1 Hd2].
  pose proof (Z.log2_nonneg p) as Ha. pose proof (Z.log2_nonneg d) as Hb.
  set (a := Z.log2 p) in *. set (b := Z.log2 d) in *.
  rewrite <- Z.add_1_r in Hp2, Hd2.
  destruct (Z.ltb_spec (scaled p (- (a - b))) (scaled d (a - b))) as [Hlt|Hge].
  - replace (a - b - 1 + 1) with (a - b) by lia. split; [|exact Hlt].
    destruct (Z.le_gt_cases 0 (a - b - 1)) as [Hk|Hk].
    + rewrite scaled_nonneg_l, scaled_nonneg_r by lia.
      assert (2 ^ a = 2 ^ (b + 1) * 2 ^ (a - b - 1)) as E
        by (rewrite <- pow2_split by lia; f_equal; lia).
      assert (0 < 2 ^ (a - b - 1)) by (apply Z.pow_pos_nonneg; lia).
      nia.
    + rewrite scaled_neg_l, scaled_neg_r by lia.
      assert (2 ^ (b + 1) = 2 ^ a * 2 ^ (- (a - b - 1))) as E
        by (rewrite <- pow2_split by lia; f_equal; lia).
      assert (0 < 2 ^ (- (a - b - 1))) by (apply Z.pow_pos_nonneg; lia).
      nia.
  - split; [exact Hge|].
    destruct (Z.le_gt_cases 0 (a - b + 1)) as [Hk|Hk].
    + rewrite scaled_nonneg_l, scaled_nonneg_r by lia.
      assert (2 ^ (a + 1) = 2 ^ b * 2 ^ (a - b + 1)) as E
        by (rewrite <- pow2_split by lia; f_equal; lia).
      assert (0 < 2 ^ (a - b + 1)) by (apply Z.pow_pos_nonneg; lia).
      nia.
    + rewrite scaled_neg_l, scaled_neg_r by lia.
      assert (2 ^ b = 2 ^ (a + 1) * 2 ^ (- (a - b + 1))) as E
        by (rewrite <- pow2_split by lia; f_equal; lia).
      assert (0 < 2 ^ (- (a - b + 1))) by (apply Z.pow_pos_nonneg; lia).
      nia.
Qed.


Lemma nearestEven_ge (num den : Z) :
  0 < den -> num / den <= nearestEven num den.
Proof.
  intros. unfold nearestEven.
  repeat match goal with |- context [if ?b then _ else _] => destruct b end; lia.
Qed.

Lemma nearestEven_exact (n den : Z) :
  0 < den -> nearestEven (n * den) den = n.
Proof.
  intros. unfold nearestEven.
  rewrite Z.div_mul, Z.mod_mul by lia.
  destruct (Z.ltb_spec (2 * 0) den); [done|lia].
Qed.

Lemma roundPos_pos (p d : Z) :
  0 < p -> 0 < d -> 0 < Qnum (roundPos p d).
Proof.
  intros Hp Hd. unfold roundPos. cbn [Qnum].
  destruct (ilog2_spec p d Hp Hd) as [Hlo _].
  set (fl := ilog2 p d) in *. set (e := fl - 52).
  assert (He : scaled d e <= scaled p (- e)).
  { unfold scaled in *. subst e.
    pose proof (pow2_pos fl). pose proof (pow2_pos (- fl)).
    pose proof (pow2_pos (fl - 52)). pose proof (pow2_pos (- (fl - 52))).
    assert (2 ^ Z.max 0 (fl - 52) <= 2 ^ Z.max 0 fl)
      by (apply Z.pow_le_mono_r; lia).
    assert (2 ^ Z.max 0 (- fl) <= 2 ^ Z.max 0 (- (fl - 52)))
      by (apply Z.pow_le_mono_r; lia).
    nia. }
  assert (0 < scaled d e) by (unfold scaled; pose proof (pow2_pos e); nia).
  pose proof (nearestEven_ge (scaled p (- e)) (scaled d e) ltac:(done)).
  assert (1 <= scaled p (- e) / scaled d e)
    by (apply Z.div_le_lower_bound; lia).
  unfold scaled at 1. pose proof (pow2_pos e). nia.
Qed.

(** Rounding keeps the sign, and only zero rounds to zero. *)
Lemma round_sgn (x : Q) : Z.sgn (Qnum (round x)) = Z.sgn (Qnum x).
Proof.
  unfold round. destruct (Qnum x) as [|p|p] eqn:E; [done| |].
  - pose proof (roundPos_pos (Z.pos p) (Z.pos (Qden x))). cbn [Z.sgn]. lia.
  - pose proof (roundPos_pos (Z.pos p) (Z.pos (Qden x))).
    cbn [Qopp Qnum Z.sgn]. lia.
Qed.

(** An integer of less than 54 bits is a float64: rounding returns it. *)
Lemma roundPos_int (n d : Z) :
  0 < n < 2 ^ 53 -> 0 < d -> (roundPos (n * d) d == inject_Z n)%Q.
Proof.
  intros Hn Hd. unfold roundPos.
  destruct (ilog2_spec (n * d) d ltac:(nia) Hd) as [Hlo Hhi].
  set (fl := ilog2 (n * d) d) in *.
  assert (Hfl : 0 <= fl).
  { destruct (Z.le_gt_cases 0 fl); [done|].
    rewrite scaled_neg_l, scaled_neg_r in Hhi by lia.
    assert (0 < 2 ^ (- (fl + 1))) by (apply Z.pow_pos_nonneg; lia).
    set (P := 2 ^ (- (fl + 1))) in *.
    assert (d <= n * d) by nia.
    assert (n * d * 1 <= n * d * P) by (apply Z.mul_le_mono_nonneg_l; nia).
    lia. }
  rewrite scaled_nonneg_l, scaled_nonneg_r in Hlo, Hhi by lia.
  assert (Hlog : Z.log2 n = fl).
  { apply Z.log2_unique; [done|]. rewrite <- Z.add_1_r. split; nia. }
  assert (fl < 53) by (rewrite <- Hlog; apply Z.log2_lt_pow2; lia).
  set (t := 52 - fl).
  replace (- (fl - 52)) with t by lia.
  rewrite (scaled_neg_r d), (scaled_nonneg_r (n * d) t) by lia.
  replace (n * d * 2 ^ t) with (n * 2 ^ t * d) by lia.
  rewrite nearestEven_exact by done.
  rewrite scaled_neg_r by lia. rewrite Z.max_r by lia.
  assert (0 < 2 ^ t) by (apply Z.pow_pos_nonneg; lia).
  unfold Qeq. cbn [Qnum Qden inject_Z]. rewrite Z2Pos.id by done. lia.
Qed.

Lemma round_int (x : Q) (n : Z) :
  Qnum x = n * Zpos (Qden x) -> - 2 ^ 53 < n < 2 ^ 53 ->
  (round x == inject_Z n)%Q.
Proof.
  intros Hx Hn. unfold round.
  destruct (Qnum x) as [|p|p] eqn:E.
  - assert (n = 0) as -> by nia. reflexivity.
  - rewrite Hx. apply roundPos_int; [nia|done].
  - replace (Z.pos p) with (- n * Z.pos (Qden x)) by lia.
    rewrite roundPos_int by (try nia; done).
    unfold Qeq; cbn. lia.
Qed.


Lemma nearestEven_err (num den : Z) :
  0 < den ->
  - den <= 2 * (nearestEven num den * den - num) <= den.
Proof.
  intros Hden. unfold nearestEven.
  pose proof (Z.div_mod num den ltac:(lia)).
  pose proof (Z.mod_pos_bound num den Hden).
  destruct (Z.ltb_spec (2 * (num `mod` den)) den); [nia|].
  destruct (Z.ltb_spec den (2 * (num `mod` den))); [nia|].
  destruct (Z.even (num / den)); nia.
Qed.

(** Rounding moves a positive number by at most [2^-53] of itself. *)
Lemma roundPos_err (p d : Z) :
  0 < p -> 0 < d ->
  let r := roundPos p d in
  - (p * Zpos (Qden r))
    <= 2 ^ 53 * (Qnum r * d - p * Zpos (Qden r))
    <= p * Zpos (Qden r).
Proof.
  intros Hp Hd. unfold roundPos. cbn [Qnum Qden].
  destruct (ilog2_spec p d Hp Hd) as [Hlo _].
  set (fl := ilog2 p d) in *. set (e := fl - 52).
  pose proof (pow2_pos e) as He1. pose proof (pow2_pos (- e)) as He2.
  rewrite Z2Pos.id by done.
  assert (Hden : 0 < scaled d e) by (unfold scaled; nia).
  pose proof (nearestEven_err (scaled p (- e)) (scaled d e) Hden) as Herr.
  set (m := nearestEven (scaled p (- e)) (scaled d e)) in *.
  assert (Hbig : 2 ^ 52 * scaled d e <= scaled p (- e)).
  { subst e. destruct (Z.le_gt_cases 52 fl) as [H52|H52].
    - rewrite scaled_nonneg_l, scaled_nonneg_r in * by lia.
      replace (2 ^ fl) with (2 ^ 52 * 2 ^ (fl - 52)) in Hlo
        by (rewrite <- pow2_split by lia; f_equal; lia).
      lia.
    - rewrite (scaled_neg_l p), (scaled_neg_r d) in * by lia.
      destruct (Z.le_gt_cases 0 fl) as [H0|H0].
      + rewrite scaled_nonneg_l, scaled_nonneg_r in Hlo by lia.
        replace (2 ^ 52) with (2 ^ fl * 2 ^ (- (fl - 52)))
          by (rewrite <- pow2_split by lia; f_equal; lia).
        assert (0 < 2 ^ (- (fl - 52))) by (apply Z.pow_pos_nonneg; lia).
        nia.
      + rewrite scaled_neg_l, scaled_neg_r in Hlo by lia.
        replace (2 ^ (- (fl - 52))) with (2 ^ 52 * 2 ^ (- fl))
          by (rewrite <- pow2_split by lia; f_equal; lia).
        nia. }
  unfold scaled in *.
  set (Ep := 2 ^ Z.max 0 e) in *. set (En := 2 ^ Z.max 0 (- e)) in *.
  replace (2 ^ 53) with (2 * 2 ^ 52) by reflexivity.
  set (T := 2 ^ 52) in *.
  assert (0 < T) by done.
  replace (m * Ep * d - p * En) with (m * (d * Ep) - p * En) by lia.
  split; nia.
Qed.

Lemma round_err (x : Q) : (Qabs (round x - x) <= Qabs x * eps)%Q.
Proof.
  destruct x as [xn xd]. unfold round. cbn [Qnum Qden].
  destruct xn as [|p|p].
  - done.
  - pose proof (roundPos_err (Zpos p) (Zpos xd) ltac:(done) ltac:(done)) as H.
    cbn zeta in H. destruct (roundPos (Z.pos p) (Z.pos xd)) as [rn rd].
    cbn [Qnum Qden] in H. change (2 ^ 53) with 9007199254740992 in H.
    apply Qabs_Qle_condition. unfold eps, Qle, Qabs, Qminus, Qplus, Qopp, Qmult.
    cbn [Qnum Qden Z.abs Z.opp]. rewrite !Pos2Z.inj_mul. split; nia.
  - pose proof (roundPos_err (Zpos p) (Zpos xd) ltac:(done) ltac:(done)) as H.
    cbn zeta in H. destruct (roundPos (Z.pos p) (Z.pos xd)) as [rn rd].
    cbn [Qnum Qden] in H. change (2 ^ 53) with 9007199254740992 in H.
    apply Qabs_Qle_condition. unfold eps, Qle, Qabs, Qminus, Qplus, Qopp, Qmult.
    cbn [Qnum Qden Z.abs Z.opp]. rewrite !Pos2Z.inj_mul. split; nia.
Qed.

End Rounding.


Section SecondsFacts.

Import float64.

Lemma quot_rem_sign (d : Z) :
  let sec := d `quot` 1000000000 in
  let nsec := d `rem` 1000000000 in
  d = 1000000000 * sec + nsec
  /\ (0 <= d -> 0 <= sec /\ 0 <= nsec)
  /\ (d <= 0 -> sec <= 0 /\ nsec <= 0).
Proof.
  cbn zeta. split; [apply Z.quot_rem'|]. split; intros Hd.
  - split; [apply Z.quot_pos; lia|apply Z.rem_nonneg; lia].
  - pose proof (Z.quot_opp_l d 1000000000 ltac:(lia)).
    pose proof (Z.quot_pos (- d) 1000000000 ltac:(lia) ltac:(lia)).
    pose proof (Z.rem_opp_l d 1000000000 ltac:(lia)).
    pose proof (Z.rem_nonneg (- d) 1000000000 ltac:(lia) ltac:(lia)).
    lia.
Qed.

Lemma Seconds_sgn (d : Z) : Z.sgn (Qnum (time.Seconds d)) = Z.sgn d.
Proof.
  destruct (Z.eq_dec d 0) as [->|Hne]; [reflexivity|].
  unfold time.Seconds, time.Second, add, div, of_int.
  destruct (quot_rem_sign d) as (Hd & Hpos & Hneg). cbn zeta in *.
  set (sec := d `quot` 1000000000) in *. set (nsec := d `rem` 1000000000) in *.
  rewrite round_sgn.
  set (A := round (inject_Z sec)).
  set (B := round (round (inject_Z nsec) / inject_Z 1000000000)).
  assert (HA : Z.sgn (Qnum A) = Z.sgn sec) by apply round_sgn.
  assert (HB : Z.sgn (Qnum B) = Z.sgn nsec).
  { unfold B. rewrite round_sgn. unfold Qdiv, Qmult, Qinv. cbn [Qnum inject_Z].
    rewrite Z.mul_1_r. apply round_sgn. }
  cbn [Qplus Qnum].
  pose proof (Pos2Z.is_pos (Qden A)). pose proof (Pos2Z.is_pos (Qden B)).
  destruct (Z.lt_trichotomy d 0) as [Hlt|[Heq|Hgt]].
  - destruct Hneg as [Hs Hn]; [lia|].
    assert (Qnum A <= 0) by (destruct (Z.sgn_spec (Qnum A)) as [[? ?]|[[? ?]|[? ?]]],
      (Z.sgn_spec sec) as [[? ?]|[[? ?]|[? ?]]]; lia).
    assert (Qnum B <= 0) by (destruct (Z.sgn_spec (Qnum B)) as [[? ?]|[[? ?]|[? ?]]],
      (Z.sgn_spec nsec) as [[? ?]|[[? ?]|[? ?]]]; lia).
    assert (Qnum A < 0 \/ Qnum B < 0).
    { assert (sec < 0 \/ nsec < 0) as [?|?] by lia; [left|right].
      - destruct (Z.sgn_spec (Qnum A)) as [[? ?]|[[? ?]|[? ?]]],
          (Z.sgn_spec sec) as [[? ?]|[[? ?]|[? ?]]]; lia.
      - destruct (Z.sgn_spec (Qnum B)) as [[? ?]|[[? ?]|[? ?]]],
          (Z.sgn_spec nsec) as [[? ?]|[[? ?]|[? ?]]]; lia. }
    rewrite (Z.sgn_neg d) by done. apply Z.sgn_neg. nia.
  - done.
  - destruct Hpos as [Hs Hn]; [lia|].
    assert (0 <= Qnum A) by (destruct (Z.sgn_spec (Qnum A)) as [[? ?]|[[? ?]|[? ?]]],
      (Z.sgn_spec sec) as [[? ?]|[[? ?]|[? ?]]]; lia).
    assert (0 <= Qnum B) by (destruct (Z.sgn_spec (Qnum B)) as [[? ?]|[[? ?]|[? ?]]],
      (Z.sgn_spec nsec) as [[? ?]|[[? ?]|[? ?]]]; lia).
    assert (0 < Qnum A \/ 0 < Qnum B).
    { assert (0 < sec \/ 0 < nsec) as [?|?] by lia; [left|right].
      - destruct (Z.sgn_spec (Qnum A)) as [[? ?]|[[? ?]|[? ?]]],
          (Z.sgn_spec sec) as [[? ?]|[[? ?]|[? ?]]]; lia.
      - destruct (Z.sgn_spec (Qnum B)) as [[? ?]|[[? ?]|[? ?]]],
          (Z.sgn_spec nsec) as [[? ?]|[[? ?]|[? ?]]]; lia. }
    rewrite (Z.sgn_pos d) by done. apply Z.sgn_pos. nia.
Qed.

(** A whole number of seconds is converted exactly. *)
Lemma Seconds_whole (d : Z) :
  d `rem` 1000000000 = 0 -> - 2 ^ 63 <= d <= 2 ^ 63 - 1 ->
  (time.Seconds d == d # 1000000000)%Q.
Proof.
  intros Hrem Hd. unfold time.Seconds, time.Second, add, div, of_int.
  destruct (quot_rem_sign d) as (Hq & _). cbn zeta in *.
  rewrite Hrem in *. set (sec := d `quot` 1000000000) in *.
  assert (Hsec : - 2 ^ 53 < sec < 2 ^ 53) by lia.
  pose proof (round_int (inject_Z sec) sec ltac:(cbn; lia) Hsec) as HA.
  set (A := round (inject_Z sec)) in *.
  change (round (round (inject_Z 0) / inject_Z 1000000000)) with 0%Q.
  rewrite (round_int (A + 0) sec); [|by (unfold Qeq in HA; cbn in *; lia)|done].
  unfold Qeq. cbn. lia.
Qed.


(** The conversion is within [2^-51] of the exact quotient, relatively. *)
Lemma Seconds_err (d : Z) :
  (Qabs (time.Seconds d - (d # 1000000000))
   <= Qabs (d # 1000000000) * (1 # 2251799813685248))%Q.
Proof.
  unfold time.Seconds, time.Second, add, div, of_int.
  destruct (quot_rem_sign d) as (Hd & Hpos & Hneg). cbn zeta in *.
  set (sec := d `quot` 1000000000) in *. set (nsec := d `rem` 1000000000) in *.
  change (?n / inject_Z 1000000000)%Q with (n * (1 # 1000000000))%Q.
  pose proof (round_err (inject_Z sec)) as HA.
  pose proof (round_err (inject_Z nsec)) as HN.
  set (A := round (inject_Z sec)) in *. set (N := round (inject_Z nsec)) in *.
  pose proof (round_err (N * (1 # 1000000000))) as HB.
  set (B := round (N * (1 # 1000000000))) in *.
  pose proof (round_err (A + B)) as HS.
  set (S := round (A + B)) in *.
  assert (HX : (d # 1000000000 == inject_Z sec + inject_Z nsec * (1 # 1000000000))%Q)
    by (unfold Qeq; cbn; lia).
  rewrite HX. clear HX.
  set (qs := inject_Z sec) in *. set (qn := inject_Z nsec) in *.
  unfold eps in *.
  destruct (Z.le_ge_cases 0 d) as [H0|H0].
  - destruct (Hpos H0) as [Hs Hn].
    assert (0 <= qs)%Q by (unfold Qle; cbn; lia).
    assert (0 <= qn)%Q by (unfold Qle; cbn; lia).
    rewrite (Qabs_pos qs) in HA by done. apply Qabs_Qle_condition in HA.
    rewrite (Qabs_pos qn) in HN by done. apply Qabs_Qle_condition in HN.
    rewrite (Qabs_pos (N * _)) in HB by lra. apply Qabs_Qle_condition in HB.
    rewrite (Qabs_pos (A + B)) in HS by lra. apply Qabs_Qle_condition in HS.
    rewrite (Qabs_pos (qs + _)) by lra. apply Qabs_Qle_condition. lra.
  - destruct (Hneg H0) as [Hs Hn].
    assert (qs <= 0)%Q by (unfold Qle; cbn; lia).
    assert (qn <= 0)%Q by (unfold Qle; cbn; lia).
    rewrite (Qabs_neg qs) in HA by done. apply Qabs_Qle_condition in HA.
    rewrite (Qabs_neg qn) in HN by done. apply Qabs_Qle_condition in HN.
    rewrite (Qabs_neg (N * _)) in HB by lra. apply Qabs_Qle_condition in HB.
    rewrite (Qabs_neg (A + B)) in HS by lra. apply Qabs_Qle_condition in HS.
    rewrite (Qabs_neg (qs + _)) by lra. apply Qabs_Qle_condition. lra.
Qed.

End SecondsFacts.

Lemma Sub_clamp (t u : time.Time) :
  time.Sub t u = Z.max (- 2 ^ 63) (Z.min (2 ^ 63 - 1) (t - u)).
Proof.
  unfold time.Sub, GoInt.minInt64, GoInt.maxInt64.
  destruct (Z.ltb_spec (t - u) (- 2 ^ 63)); [lia|].
  destruct (Z.ltb_spec (2 ^ 63 - 1) (t - u)); lia.
Qed.

Lemma Sub_range (t u : time.Time) : - 2 ^ 63 ≤ time.Sub t u ≤ 2 ^ 63 - 1.
Proof. rewrite Sub_clamp. lia. Qed.

Lemma processObject_returns_iff (pw : JobsWorker) (j : batchTypes.Job) (w : World) :
  returns (processObject pw j w) = derefsPresent j.
Proof.
  unfold processObject, derefsPresent.
  destruct j as [meta [p c a b] [st ct ac su fa]]; cbn.
  destruct st, a, c, b, p; destruct ct; reflexivity.
Qed.

Lemma processObject_never_blocks (pw : JobsWorker) (j : batchTypes.Job) (w : World) :
  panics (processObject pw j w) = negb (returns (processObject pw j w)).
Proof.
  unfold processObject.
  destruct j as [meta [p c a b] [st ct ac su fa]]; cbn.
  destruct st, a, c, b, p; destruct ct; reflexivity.
Qed.

Section Aggregation.

Lemma lookupOrCreate_untouched bag k sm :
  untouched bag sm →
  untouched bag (lookupOrCreate k (NewClusterJobMetrics bag m.ALL k) sm).2.
Proof.
  intros Hsm. unfold lookupOrCreate.
  destruct (sm !! k) eqn:Hk; cbn; [done|].
  intros k' b. rewrite lookup_insert. case_decide; [|by apply Hsm].
  intros [= <-]. by subst.
Qed.

Lemma lookupOrCreate_keeps k k' fresh (sm : gmap string ClusterJobMetrics.t) :
  is_Some (sm !! k') → is_Some ((lookupOrCreate k fresh sm).2 !! k').
Proof.
  unfold lookupOrCreate. destruct (sm !! k) eqn:Hk; cbn; [done|].
  intros H. rewrite lookup_insert. by case_decide.
Qed.

Lemma lookupOrCreate_has k fresh (sm : gmap string ClusterJobMetrics.t) :
  is_Some ((lookupOrCreate k fresh sm).2 !! k).
Proof.
  unfold lookupOrCreate. destruct (sm !! k) eqn:Hk; cbn.
  - by rewrite Hk.
  - by rewrite lookup_insert_eq.
Qed.

Lemma summarize_SummaryMap pw jobObject :
  SummaryMap (summarize pw jobObject).1 =
  (lookupOrCreate (JobSchema.Namespace jobObject)
     (NewClusterJobMetrics (Bag pw) m.ALL (JobSchema.Namespace jobObject))
     (lookupOrCreate m.ALL (NewClusterJobMetrics (Bag pw) m.ALL m.ALL)
        (SummaryMap pw)).2).2.
Proof.
  unfold summarize.
  destruct (lookupOrCreate m.ALL _ _) as [summary sm]; cbn.
  by destruct (lookupOrCreate (JobSchema.Namespace jobObject) _ sm).
Qed.

Lemma summarize_Bag pw jobObject : Bag (summarize pw jobObject).1 = Bag pw.
Proof.
  unfold summarize.
  destruct (lookupOrCreate m.ALL _ _) as [summary sm].
  by destruct (lookupOrCreate (JobSchema.Namespace jobObject) _ sm).
Qed.

Lemma summarize_untouched pw jobObject :
  untouched (Bag pw) (SummaryMap pw) →
  untouched (Bag pw) (SummaryMap (summarize pw jobObject).1).
Proof.
  intros H. rewrite summarize_SummaryMap.
  by do 2 apply lookupOrCreate_untouched.
Qed.

Lemma summarize_global pw jobObject :
  is_Some (SummaryMap (summarize pw jobObject).1 !! m.ALL).
Proof.
  rewrite summarize_SummaryMap.
  apply lookupOrCreate_keeps, lookupOrCreate_has.
Qed.

Lemma summarize_keeps pw jobObject k :
  is_Some (SummaryMap pw !! k) →
  is_Some (SummaryMap (summarize pw jobObject).1 !! k).
Proof.
  intros H. rewrite summarize_SummaryMap.
  by do 2 apply lookupOrCreate_keeps.
Qed.

(** The two locals of [summarize] do receive the record: on a fresh map they
    end as the new buckets with the record added, while the map keeps the
    buckets as they were created ([summarize_untouched]). *)
Lemma summarize_locals pw jobObject :
  SummaryMap pw = ∅ →
  JobSchema.Namespace jobObject ≠ m.ALL →
  (summarize pw jobObject).2 =
    (bump (NewClusterJobMetrics (Bag pw) m.ALL m.ALL) jobObject,
     bump (NewClusterJobMetrics (Bag pw) m.ALL (JobSchema.Namespace jobObject))
          jobObject).
Proof.
  intros Hsm Hns. unfold summarize, lookupOrCreate. rewrite Hsm.
  rewrite lookup_empty. rewrite lookup_insert_ne by done.
  by rewrite lookup_empty.
Qed.

Lemma rangeStore_inv objs : ∀ pw count w pw' count' w',
  rangeStore pw count objs w = Ret (pw', count') w' →
  Bag pw' = Bag pw
  ∧ (untouched (Bag pw) (SummaryMap pw) → untouched (Bag pw) (SummaryMap pw'))
  ∧ (objs = [] → SummaryMap pw' = SummaryMap pw)
  ∧ (objs ≠ [] → is_Some (SummaryMap pw' !! m.ALL))
  ∧ (∀ k, is_Some (SummaryMap pw !! k) → is_Some (SummaryMap pw' !! k)).
Proof.
  induction objs as [|obj objs IH]; intros pw count w pw' count' w' Hrun.
  - cbn in Hrun. injection Hrun as <- <- <-. by repeat split.
  - cbn in Hrun. unfold mbind, Go_bind in Hrun.
    destruct obj as [|n|j|kind]; cbn in Hrun; try discriminate.
    destruct (processObject pw j w) as [jobSchema w1|msg w1|w1] eqn:Hj;
      try discriminate.
    apply IH in Hrun as (HB & HU & _ & _ & HK).
    rewrite summarize_Bag in HB, HU.
    repeat split.
    + done.
    + intros H. by apply HU, summarize_untouched.
    + done.
    + intros _. apply HK, summarize_global.
    + intros k Hk. by apply HK, summarize_keeps.
Qed.

End Aggregation.

Lemma buildAppDMetrics_inv (pw pw' : JobsWorker) (w w' : World) :
  buildAppDMetrics pw w = Ret pw' w' →
  ∃ i, informer pw = Some i
    ∧ Bag pw' = Bag pw
    ∧ untouched (Bag pw) (SummaryMap pw')
    ∧ (store i = [] → SummaryMap pw' = ∅)
    ∧ (store i ≠ [] → is_Some (SummaryMap pw' !! m.ALL)).
Proof.
  unfold buildAppDMetrics. go_unfold. unfold StartBT. cbn.
  destruct (informer pw) as [i|] eqn:Hi; [|discriminate].
  cbn.
  match goal with
  | |- context [rangeStore ?p ?c ?o ?x] =>
      destruct (rangeStore p c o x) as [[pw1 count] w1|msg w1|w1] eqn:Hrun
  end; try discriminate.
  cbn. unfold PostMetrics, StopBT. go_unfold. cbn.
  intros [= <- <-].
  apply rangeStore_inv in Hrun as (HB & HU & HE & HN & _). cbn in *.
  exists i. repeat split; try done.
  apply HU. intros k b. by rewrite lookup_empty.
Qed.

Lemma untouched_counter (bag : m.AppDBag) (sm : gmap string ClusterJobMetrics.t)
    (field : ClusterJobMetrics.t → Z) (k : string) (b : ClusterJobMetrics.t) :
  untouched bag sm → field ∈ counterFields → sm !! k = Some b → field b = 0.
Proof.
  intros Hsm Hf Hk. rewrite (Hsm k b Hk).
  unfold counterFields in Hf.
  repeat (apply elem_of_cons in Hf as [->|Hf]; [reflexivity|]).
  by apply elem_of_nil in Hf.
Qed.

Lemma untouched_namespaceSum (bag : m.AppDBag)
    (sm : gmap string ClusterJobMetrics.t) (field : ClusterJobMetrics.t → Z) :
  untouched bag sm → field ∈ counterFields → namespaceSum field sm = 0.
Proof.
  intros Hsm Hf. unfold namespaceSum, namespaceBuckets.
  assert (Hall : ∀ kv, In kv (map_to_list sm) → field kv.2 = 0).
  { intros [k b] Hin. apply list_elem_of_In, elem_of_map_to_list in Hin.
    by eapply untouched_counter. }
  induction (map_to_list sm) as [|kv l IH]; [done|].
  cbn. destruct (negb _); cbn.
  - rewrite Hall by (by left). rewrite IH; [done|]. intros ? ?. apply Hall. by right.
  - apply IH. intros ? ?. apply Hall. by right.
Qed.

Lemma untouched_globalValue (bag : m.AppDBag)
    (sm : gmap string ClusterJobMetrics.t) (field : ClusterJobMetrics.t → Z) :
  untouched bag sm → field ∈ counterFields → globalValue field sm = 0.
Proof.
  intros Hsm Hf. unfold globalValue.
  destruct (sm !! m.ALL) as [b|] eqn:Hg; cbn.
  - by eapply untouched_counter.
  - unfold counterFields in Hf.
    repeat (apply elem_of_cons in Hf as [->|Hf]; [reflexivity|]).
    by apply elem_of_nil in Hf.
Qed.

(** The first job of the scenario through [summarize]: both locals count one
    job with one active pod, the two buckets in the map count nothing. *)
Example summarize_first_job :
  let pw := Scenario.workerOn Scenario.snapshot in
  let r := Scenario.recordOf (Scenario.job "j1" "a" 1 0 0 None) in
  counts (summarize pw r).2.1 = (1, 1, 0, 0)
  ∧ counts (summarize pw r).2.2 = (1, 1, 0, 0)
  ∧ counts <$> SummaryMap (summarize pw r).1 !! "all" = Some (0, 0, 0, 0)
  ∧ counts <$> SummaryMap (summarize pw r).1 !! "a" = Some (0, 0, 0, 0).
Proof. by vm_compute. Qed.

(** On the scenario of three jobs the aggregation step as the specification
    words it yields the expected totals. *)
Lemma scenario_spec_counts :
  let sm := foldl (summarize_spec Scenario.bag) ∅ Scenario.records in
  counts <$> sm !! "all" = Some (3, 3, 1, 1)
  ∧ counts <$> sm !! "a" = Some (2, 1, 1, 0)
  ∧ counts <$> sm !! "b" = Some (1, 2, 0, 1).
Proof. vm_compute. done. Qed.

(** C1.  The scenario of three jobs in namespaces a, a, b with active counts
    1, 0, 2, succeeded 0, 1, 0 and failed 0, 0, 1, run through one pass of
    [buildAppDMetrics]: the pass returns, the summary map holds the three
    buckets "all", "a" and "b", and every count in each of them is still 0.
    The totals 3/3/1/1, 2/1/1/0 and 1/2/0/1 are what the pass computes in the
    locals of [summarize] and what storing them back would give
    ([scenario_spec_counts]); the map never receives them. *)
Theorem scenario_pass_counts :
  ∃ pw' w',
    buildAppDMetrics (Scenario.workerOn Scenario.snapshot) (Scenario.world [] None)
      = Ret pw' w'
    ∧ size (SummaryMap pw') = 3%nat
    ∧ counts <$> SummaryMap pw' !! "all" = Some (0, 0, 0, 0)
    ∧ counts <$> SummaryMap pw' !! "a" = Some (0, 0, 0, 0)
    ∧ counts <$> SummaryMap pw' !! "b" = Some (0, 0, 0, 0).
Proof.
  eexists _, _. split; [vm_compute; reflexivity|]. vm_compute. done.
Qed.

(** C2, counterexample.  On the empty snapshot the pass returns with an empty
    summary map: neither the global bucket nor a "default" bucket is there. *)
Lemma empty_snapshot_has_no_bucket :
  ∃ pw' w',
    buildAppDMetrics (Scenario.workerOn []) (Scenario.world [] None) = Ret pw' w'
    ∧ SummaryMap pw' !! m.ALL = None
    ∧ SummaryMap pw' !! "default" = None
    ∧ SummaryMap pw' = ∅.
Proof.
  eexists _, _. split; [vm_compute; reflexivity|]. vm_compute. done.
Qed.

(** C2, as amended.  After every pass that returns, for each of JobCount,
    ActiveCount, SuccessCount, FailedCount and Duration the sum over the
    per-namespace buckets equals the value of the global bucket (read from
    the map as Go reads it); the global bucket is present when the snapshot
    is not empty, and on the empty snapshot the map holds no bucket at all. *)
Theorem pass_sums_match (pw pw' : JobsWorker) (w w' : World) :
  buildAppDMetrics pw w = Ret pw' w' →
  (∀ field, field ∈ counterFields →
     namespaceSum field (SummaryMap pw') = globalValue field (SummaryMap pw'))
  ∧ (∀ i, informer pw = Some i →
       (store i ≠ [] → is_Some (SummaryMap pw' !! m.ALL))
       ∧ (store i = [] → SummaryMap pw' = ∅)).
Proof.
  intros Hrun. apply buildAppDMetrics_inv in Hrun as (i & Hi & HB & HU & HE & HN).
  split.
  - intros field Hf.
    rewrite (untouched_namespaceSum _ _ _ HU Hf).
    by rewrite (untouched_globalValue _ _ _ HU Hf).
  - intros i' Hi'. rewrite Hi in Hi'. injection Hi' as <-. by split.
Qed.

(** The invariant of C2 on the scenario of three jobs. *)
Lemma pass_sums_match_witness :
  ∃ pw' w',
    buildAppDMetrics (Scenario.workerOn Scenario.snapshot) (Scenario.world [] None)
      = Ret pw' w'
    ∧ (∀ field, field ∈ counterFields →
         namespaceSum field (SummaryMap pw') = globalValue field (SummaryMap pw'))
    ∧ (∀ i, informer (Scenario.workerOn Scenario.snapshot) = Some i →
         (store i ≠ [] → is_Some (SummaryMap pw' !! m.ALL))
         ∧ (store i = [] → SummaryMap pw' = ∅)).
Proof.
  eexists _, _. split; [vm_compute; reflexivity|].
  eapply (pass_sums_match (Scenario.workerOn Scenario.snapshot) _
            (Scenario.world [] None)).
  vm_compute; reflexivity.
Defined.

(** C5.  Whenever [processObject] yields a record, the job has a start time,
    which the record carries, and a completion time, if there is one, is the
    record's end time.  Let [finish] be the completion time, or without one
    the clock reading taken by the call, and [d] the nanoseconds
    [finish - start] pinned to the range of an [int64].  The record's
    Duration is the float64 that [Duration.Seconds] gives for [d]: it is
    within [2^-51] of [d / 10^9], relatively, and it is [d / 10^9] exactly
    when [d] is a whole number of seconds. *)
Theorem processObject_Duration (pw : JobsWorker) (j : batchTypes.Job)
    (w w' : World) (rec : JobSchema.t) :
  processObject pw j w = Ret rec w' →
  ∃ start,
    batchTypes.StartTime (batchTypes.Status j) = Some start
    ∧ JobSchema.StartTime rec = start
    ∧ (∀ completion,
         batchTypes.CompletionTime (batchTypes.Status j) = Some completion →
         JobSchema.EndTime rec = completion)
    ∧ let finish := default (clock w (clockReads w))
                      (batchTypes.CompletionTime (batchTypes.Status j)) in
      let d := Z.max (- 2 ^ 63) (Z.min (2 ^ 63 - 1) (finish - start)) in
      JobSchema.Duration rec = time.Seconds d
      ∧ (Qabs (JobSchema.Duration rec - (d # 1000000000))
         <= Qabs (d # 1000000000) * (1 # 2251799813685248))%Q
      ∧ (d `rem` 1000000000 = 0 →
         (JobSchema.Duration rec == d # 1000000000)%Q).
Proof.
  intros Hrun.
  assert (∃ start,
    batchTypes.StartTime (batchTypes.Status j) = Some start
    ∧ JobSchema.StartTime rec = start
    ∧ (∀ completion,
         batchTypes.CompletionTime (batchTypes.Status j) = Some completion →
         JobSchema.EndTime rec = completion)
    ∧ JobSchema.Duration rec
      = time.Seconds
          (time.Sub (default (clock w (clockReads w))
                       (batchTypes.CompletionTime (batchTypes.Status j)))
             start)) as (start & Hs & Hst & Hend & HD).
  { revert Hrun. unfold processObject.
    destruct j as [meta [p c a b] [st ct ac su fa]]; cbn.
    destruct st as [start|]; [|discriminate].
    destruct a, c, b, p; destruct ct as [completion|]; cbn; try discriminate.
    - intros [= <- <-]. exists start. cbn. repeat split. by intros ? [= <-].
    - intros [= <- <-]. exists start. cbn. repeat split. by intros ? [= ]. }
  exists start. repeat (split; [done|]). cbn zeta.
  rewrite <- Sub_clamp, HD. split; [done|]. split.
  - apply Seconds_err.
  - intros Hrem. apply Seconds_whole; [done|apply Sub_range].
Qed.

(** A job that ran from second 100 to second 160 has Duration 60. *)
Lemma processObject_Duration_witness :
  ∃ rec w',
    processObject (Scenario.workerOn [])
      (Scenario.job "j2" "a" 0 1 0 (Some 160000000000)) (Scenario.world [] None)
      = Ret rec w'
    ∧ JobSchema.StartTime rec = 100000000000
    ∧ JobSchema.EndTime rec = 160000000000
    ∧ JobSchema.Duration rec = time.Seconds 60000000000
    ∧ (JobSchema.Duration rec == 60 # 1)%Q.
Proof.
  eexists _, _. split; [vm_compute; reflexivity|].
  destruct (processObject_Duration (Scenario.workerOn [])
              (Scenario.job "j2" "a" 0 1 0 (Some 160000000000))
              (Scenario.world [] None) _ _ eq_refl)
    as (start & Hstart & Hst & Hend & Hd & _ & Hq).
  injection Hstart as <-.
  split; [exact Hst|]. split; [exact (Hend _ eq_refl)|]. split; [exact Hd|].
  rewrite Hq by reflexivity. reflexivity.
Defined.

(** The Duration of a record is not always the difference in seconds.
    - A job that completes 16777216.999999999 s after its start gets the
      Duration 16777217: the float64 nearest to the difference.
    - A job whose completion time lies 400 years after its start gets the
      Duration of the longest [int64] of nanoseconds, some 292 years. *)
Lemma processObject_Duration_inexact :
  (∃ rec w',
     processObject (Scenario.workerOn [])
       (Scenario.job "j6" "a" 0 1 0 (Some 16777316999999999))
       (Scenario.world [] None) = Ret rec w'
     ∧ JobSchema.StartTime rec = 100000000000
     ∧ JobSchema.EndTime rec = 16777316999999999
     ∧ (JobSchema.Duration rec == 16777217 # 1)%Q
     ∧ ¬ (JobSchema.Duration rec
          == (16777316999999999 - 100000000000) # 1000000000)%Q)
  ∧ (∃ rec w',
       processObject (Scenario.workerOn [])
         (Scenario.job "j7" "a" 0 1 0 (Some 12614400100000000000))
         (Scenario.world [] None) = Ret rec w'
       ∧ JobSchema.StartTime rec = 100000000000
       ∧ JobSchema.EndTime rec = 12614400100000000000
       ∧ (JobSchema.Duration rec < 9223372037 # 1)%Q
       ∧ ((12614400100000000000 - 100000000000) # 1000000000
          == 12614400000 # 1)%Q).
Proof.
  split; eexists _, _; (split; [vm_compute; reflexivity|]);
    repeat split; vm_compute; congruence.
Qed.

Lemma rangeStore_crash (j : batchTypes.Job) (objs : list Object) :
  derefsPresent j = false → ObjJob j ∈ objs →
  ∀ pw count w, panics (rangeStore pw count objs w) = true.
Proof.
  intros Hj. induction objs as [|obj objs IH]; intros Hin pw count w.
  - by apply elem_of_nil in Hin.
  - cbn. unfold mbind, Go_bind.
    destruct obj as [|n|j'|kind]; cbn; try reflexivity.
    pose proof (processObject_never_blocks pw j' w) as Hnb.
    pose proof (processObject_returns_iff pw j' w) as Hret.
    destruct (processObject pw j' w) as [jobSchema w1|msg w1|w1]; cbn in *;
      try done.
    apply elem_of_cons in Hin as [[= <-]|Hin]; [congruence|].
    by apply IH.
Qed.

(** C9.  [processObject] returns exactly when StartTime,
    ActiveDeadlineSeconds, Completions, BackoffLimit and Parallelism are all
    set, and panics exactly when one of them is nil; CompletionTime plays no
    part in this.  A snapshot that holds a job with one of them nil makes
    the whole pass [buildAppDMetrics] panic. *)
Theorem processObject_panic_free_iff (pw : JobsWorker) (j : batchTypes.Job)
    (w : World) :
  returns (processObject pw j w) = derefsPresent j
  ∧ panics (processObject pw j w) = negb (derefsPresent j)
  ∧ (∀ i, informer pw = Some i → ObjJob j ∈ store i →
       derefsPresent j = false → panics (buildAppDMetrics pw w) = true).
Proof.
  split; [apply processObject_returns_iff|]. split.
  - by rewrite processObject_never_blocks, processObject_returns_iff.
  - intros i Hi Hin Hj.
    unfold buildAppDMetrics. go_unfold. unfold StartBT. cbn. rewrite Hi. cbn.
    match goal with
    | |- context [rangeStore ?p ?c ?o ?x] =>
        pose proof (rangeStore_crash j o Hj Hin p c x) as Hc;
        destruct (rangeStore p c o x) as [[pw1 count] w1|msg w1|w1]
    end; done.
Qed.

(** A job without a deadline crashes [processObject] and the pass. *)
Lemma processObject_panic_free_iff_witness :
  returns (processObject (Scenario.workerOn [ObjJob Scenario.jobWithoutDeadline])
             Scenario.jobWithoutDeadline (Scenario.world [] None)) = false
  ∧ panics (buildAppDMetrics
              (Scenario.workerOn [ObjJob Scenario.jobWithoutDeadline])
              (Scenario.world [] None)) = true.
Proof.
  destruct (processObject_panic_free_iff
              (Scenario.workerOn [ObjJob Scenario.jobWithoutDeadline])
              Scenario.jobWithoutDeadline (Scenario.world [] None))
    as (Hret & _ & Hpass).
  split; [exact Hret|].
  apply (Hpass _ eq_refl); [by left | reflexivity].
Defined.


Section Flush.

Lemma stop_signal_queue w : queue (stop_signal w) = queue w.
Proof. unfold stop_signal. by destruct (stopIn w) as [[|k]|]. Qed.

Lemma stop_signal_trace w : trace (stop_signal w) = trace w.
Proof. unfold stop_signal. by destruct (stopIn w) as [[|k]|]. Qed.

Lemma stop_signal_backend w :
  schemas (stop_signal w) = schemas w
  ∧ createOk (stop_signal w) = createOk w
  ∧ marshalDataOk (stop_signal w) = marshalDataOk w
  ∧ marshalSchemaOk (stop_signal w) = marshalSchemaOk w.
Proof. unfold stop_signal. by destruct (stopIn w) as [[|k]|]. Qed.

Lemma stop_signal_fired w k :
  shuttingDown (stop_signal w) || stopFired (stopIn (stop_signal w)) k
  = shuttingDown w || stopFired (stopIn w) (S k).
Proof.
  unfold stop_signal, stopFired.
  destruct (stopIn w) as [[|j]|] eqn:E; cbn; rewrite ?E; try done.
  - rewrite bool_decide_true by lia. by rewrite !orb_true_r.
  - f_equal. apply bool_decide_ext. lia.
Qed.

Lemma getNextQueueItem_some w item rest :
  queue w = item :: rest →
  getNextQueueItem w = Ret (item, true) (afterGet item rest w).
Proof.
  intros Hq. unfold getNextQueueItem, WQ_Get, afterGet.
  unfold mbind, Go_bind. rewrite stop_signal_queue, Hq. cbn.
  unfold set_trace, set_queue; cbn.
  by rewrite stop_signal_trace, <- app_assoc.
Qed.

Lemma getNextQueueItem_drained w :
  queue w = [] → shuttingDown (stop_signal w) = true →
  panics (getNextQueueItem w) = true.
Proof.
  intros Hq Hs. unfold getNextQueueItem, WQ_Get.
  unfold mbind, Go_bind. by rewrite stop_signal_queue, Hq, Hs.
Qed.


Lemma continues_trans w1 w2 w3 net1 net2 :
  continues w1 w2 net1 → continues w2 w3 net2 →
  continues w1 w3 (net1 ++ net2).
Proof.
  intros (d1 & Ht1 & Hn1 & Hs1 & Hl1) (d2 & Ht2 & Hn2 & Hs2 & Hl2).
  exists (d1 ++ d2). unfold network_calls, stopBT_calls, shutdown_logs in *.
  rewrite !List.filter_app, Hn1, Hn2, Hs1, Hs2, Hl1, Hl2, Ht2, Ht1.
  by rewrite app_assoc.
Qed.

Lemma postJobRecords_spec pw batch w :
  ∃ w', postJobRecords pw batch w = Ret () w'
    ∧ queue w' = queue w
    ∧ shuttingDown w' = shuttingDown w
    ∧ continues w w'
        (postCalls (marshalDataOk w) (marshalSchemaOk w)
           (bool_decide (m.JobSchemaName (Bag pw) ∈ schemas w))
           (m.JobSchemaName (Bag pw)) batch).
Proof.
  unfold postJobRecords, json_Marshal_records, json_Marshal_schemaDef,
    SchemaExists, CreateSchema, PostAppDEvents, postCalls, continues.
  go_unfold. cbn.
  destruct (marshalDataOk w), (marshalSchemaOk w); cbn;
    try (eexists; repeat split; eexists; rewrite <- ?app_assoc;
         (split; [reflexivity|done])).
  destruct (bool_decide _); cbn.
  - eexists; repeat split; eexists; rewrite <- ?app_assoc.
    split; [reflexivity|done].
  - destruct (createOk w); cbn;
      eexists; repeat split; eexists; rewrite <- ?app_assoc;
      (split; [reflexivity|done]).
Qed.


Lemma batchSize_stop (n have : nat) (L : Z) :
  n = 0%nat ∨ Z.of_nat (S have) >= L → batchSize (S n) have L = 1%nat.
Proof. unfold batchSize. lia. Qed.

Lemma batchSize_more (n have : nat) (L : Z) :
  n ≠ 0%nat → ¬ Z.of_nat (S have) >= L →
  batchSize (S n) have L = S (batchSize n (S have) L).
Proof. unfold batchSize. lia. Qed.

Lemma flushLoop_step fuel pw acc w item rest :
  queue w = item :: rest →
  flushLoop (S fuel) pw (Z.of_nat (S (length rest))) acc w =
  if bool_decide (Z.of_nat (length rest) = 0)
     || bool_decide (Z.of_nat (length (acc ++ [item]))
                     >= m.EventAPILimit (Bag pw))
  then
    (fmt_Printf ("Sending " +:+ pretty (length (acc ++ [item]))
                   +:+ " records to AppD events API" +:+ nl);;
     postJobRecords pw (acc ++ [item]);;
     mret Returned) (afterGet item rest w)
  else flushLoop fuel pw (Z.of_nat (length rest)) (acc ++ [item])
         (afterGet item rest w).
Proof.
  intros Hq. cbn [flushLoop]. rewrite bool_decide_true by lia.
  unfold mbind at 1. unfold Go_bind at 1.
  rewrite (getNextQueueItem_some _ _ _ Hq).
  replace (Z.of_nat (S (length rest)) - 1) with (Z.of_nat (length rest)) by lia.
  cbv beta iota. unfold mbind at 1. unfold Go_bind at 1.
  unfold mret at 1. unfold Go_ret at 1.
  by destruct (_ || _).
Qed.

Lemma afterGet_continues item rest w : continues w (afterGet item rest w) [].
Proof.
  exists [EvQueueForget (Some item); EvQueueDone (Some item)].
  by split.
Qed.

Lemma flushLoop_spec pw q : ∀ acc w,
  queue w = q → q ≠ [] →
  let k := batchSize (length q) (length acc) (m.EventAPILimit (Bag pw)) in
  ∃ w', flushLoop (length q) pw (Z.of_nat (length q)) acc w = Ret Returned w'
    ∧ queue w' = drop k q
    ∧ shuttingDown w' = shuttingDown w || stopFired (stopIn w) k
    ∧ continues w w'
        (postCalls (marshalDataOk w) (marshalSchemaOk w)
           (bool_decide (m.JobSchemaName (Bag pw) ∈ schemas w))
           (m.JobSchemaName (Bag pw)) (acc ++ take k q)).
Proof.
  induction q as [|item rest IH]; intros acc w Hq Hne k; [done|].
  subst k. cbn [length]. rewrite (flushLoop_step _ _ _ _ _ _ Hq).
  pose proof (stop_signal_backend w) as (Hsch & Hcr & Hmd & Hms).
  destruct (bool_decide (Z.of_nat (length rest) = 0)
            || bool_decide (Z.of_nat (length (acc ++ [item]))
                            >= m.EventAPILimit (Bag pw))) eqn:Hcond.
  - (* the batch goes out in this iteration *)
    rewrite batchSize_stop.
    2:{ apply orb_true_iff in Hcond as [H|H]; apply bool_decide_eq_true in H.
        - left. lia.
        - right. rewrite length_app in H. cbn in H. lia. }
    go_unfold.
    destruct (postJobRecords_spec pw (acc ++ [item])
                (set_trace (trace (afterGet item rest w) ++
                   [EvLog ("Sending " +:+ pretty (length (acc ++ [item]))
                             +:+ " records to AppD events API" +:+ nl)])
                   (afterGet item rest w)))
      as (w' & Hpost & Hq' & Hs' & Hc').
    rewrite Hpost. exists w'. split; [done|].
    split; [by rewrite Hq'|].
    split.
    + rewrite Hs'. cbn. rewrite <- (stop_signal_fired w 0).
      unfold stopFired. destruct (stopIn (stop_signal w)); cbn;
        rewrite ?bool_decide_false by lia; by rewrite orb_false_r.
    + cbn in Hc'. rewrite Hsch, Hmd, Hms in Hc'.
      change (take 1 (item :: rest)) with [item].
      eapply (continues_trans w _ w' []); [|exact Hc'].
      eexists. split; [cbn; by rewrite <- app_assoc|done].
  - (* another round *)
    apply orb_false_iff in Hcond as [Hrest Hlim].
    apply bool_decide_eq_false in Hrest, Hlim.
    rewrite length_app in Hlim. cbn in Hlim.
    rewrite batchSize_more by lia.
    destruct (IH (acc ++ [item]) (afterGet item rest w)) as
      (w' & Hrun & Hq' & Hs' & Hc'); [done|by destruct rest|].
    rewrite length_app in Hq', Hs', Hc'. cbn [length] in Hq', Hs', Hc'.
    replace (length acc + 1)%nat with (S (length acc)) in Hq', Hs', Hc' by lia.
    exists w'. split; [done|]. split; [done|]. split.
    + rewrite Hs'. cbn. apply stop_signal_fired.
    + cbn in Hc'. rewrite Hsch, Hmd, Hms in Hc'.
      rewrite <- app_assoc in Hc'. cbn in Hc'. cbn [take].
      eapply (continues_trans w _ w' []); [apply afterGet_continues|exact Hc'].
Qed.

End Flush.


Section FlushTick.

#[local] Arguments flushLoop : simpl never.
#[local] Arguments batchSize : simpl never.
#[local] Arguments stopFired : simpl never.
#[local] Arguments postCalls : simpl never.

Lemma posted_network_calls t : posted (network_calls t) = posted t.
Proof.
  unfold posted, network_calls.
  induction t as [|e t IH]; [done|].
  destruct e; cbn; by rewrite ?IH.
Qed.

Lemma flushQueue_spec pw w :
  let k := batchSize (length (queue w)) 0 (m.EventAPILimit (Bag pw)) in
  ∃ w' rest,
    flushQueue pw w = Ret Returned w'
    ∧ trace w' = trace w ++ EvStartBT "FlushJobEventsQueue" (nextBT w) :: rest
    ∧ stopBT_calls rest = []
    ∧ shutdown_logs rest = []
    ∧ queue w' = drop k (queue w)
    ∧ shuttingDown w' = shuttingDown w || stopFired (stopIn w) k
    ∧ network_calls rest =
        if decide (queue w = []) then []
        else postCalls (marshalDataOk w) (marshalSchemaOk w)
               (bool_decide (m.JobSchemaName (Bag pw) ∈ schemas w))
               (m.JobSchemaName (Bag pw)) (take k (queue w)).
Proof.
  intros k. unfold flushQueue, StartBT, WQ_Len. go_unfold. cbn.
  destruct (queue w) as [|item rest] eqn:Hq.
  - cbn. eexists _, _. split; [reflexivity|]. cbn.
    rewrite <- app_assoc. split; [reflexivity|]. cbn.
    repeat split; try done.
    unfold stopFired. destruct (stopIn w); cbn;
      rewrite ?bool_decide_false by lia; by rewrite orb_false_r.
    
  - rewrite bool_decide_false by (cbn; lia).
    rewrite Nat2Z.id.
    match goal with
    | |- context [flushLoop _ pw _ [] ?x] =>
        destruct (flushLoop_spec pw (item :: rest) [] x)
          as (w' & Hrun & Hq' & Hs' & (delta & Ht & Hn & Hb & Hl));
          [by cbn|done|]
    end.
    rewrite Hrun. cbn in *. exists w'. eexists. split; [reflexivity|].
    rewrite Ht, <- !app_assoc. split; [reflexivity|].
    cbn. repeat split; try done.
Qed.


Lemma posted_postCalls known schema batch :
  posted (postCalls true true known schema batch) = [batch].
Proof. by destruct known. Qed.

End FlushTick.

(** C3, as amended.  A flush tick always returns.  With no pending item it
    makes no backend call and leaves the queue alone.  With n > 0 pending
    items and limit L it takes exactly min(n, max(1, L)) items off the queue
    and, when both marshalling steps succeed, posts them as one batch; for
    L >= 1 that number is min(n, L). *)
Theorem flush_tick_batch (pw : JobsWorker) (w : World) :
  let n := length (queue w) in
  let L := m.EventAPILimit (Bag pw) in
  ∃ w' delta,
    flushQueue pw w = Ret Returned w'
    ∧ trace w' = trace w ++ delta
    ∧ (n = 0%nat → network_calls delta = [] ∧ queue w' = queue w)
    ∧ (n ≠ 0%nat →
       let k := Nat.min n (Nat.max 1 (Z.to_nat L)) in
       queue w' = drop k (queue w)
       ∧ (marshalDataOk w = true → marshalSchemaOk w = true →
          posted delta = [take k (queue w)])
       ∧ (L >= 1 → Z.of_nat k = Z.min (Z.of_nat n) L)).
Proof.
  intros n L.
  destruct (flushQueue_spec pw w)
    as (w' & rest & Hrun & Ht & _ & _ & Hq & _ & Hn).
  exists w', (EvStartBT "FlushJobEventsQueue" (nextBT w) :: rest).
  split; [done|]. split; [done|]. split.
  - intros Hz. apply length_zero_iff_nil in Hz.
    rewrite decide_True in Hn by done.
    split; [exact Hn|]. rewrite Hq, Hz. apply drop_nil.
  - intros Hnz k.
    assert (Hk : batchSize (length (queue w)) 0 (m.EventAPILimit (Bag pw)) = k).
    { unfold batchSize, k, n, L. f_equal. f_equal. f_equal. cbn. lia. }
    rewrite Hk in Hq, Hn. split; [done|]. split.
    + intros Hd Hs.
      rewrite decide_False in Hn
        by (intros Hnil; apply Hnz; unfold n; by rewrite Hnil).
      rewrite Hd, Hs in Hn.
      change (posted rest = [take k (queue w)]).
      rewrite <- posted_network_calls, Hn. apply posted_postCalls.
    + intros HL. unfold k. lia.
Qed.

(** Five pending records and a limit of three: three are posted, two stay. *)
Lemma flush_tick_batch_witness :
  ∃ w' delta,
    flushQueue (Scenario.workerWithLimit 3) (Scenario.world Scenario.fiveRecords None)
      = Ret Returned w'
    ∧ trace w' = delta
    ∧ queue w' = [Scenario.record "r4"; Scenario.record "r5"]
    ∧ posted delta
      = [[Scenario.record "r1"; Scenario.record "r2"; Scenario.record "r3"]].
Proof.
  destruct (flush_tick_batch (Scenario.workerWithLimit 3)
              (Scenario.world Scenario.fiveRecords None))
    as (w' & delta & Hrun & Ht & _ & Hbatch).
  destruct Hbatch as (Hq & Hp & _); [discriminate|].
  exists w', delta. split; [exact Hrun|]. split; [exact Ht|].
  split; [exact Hq|]. apply Hp; reflexivity.
Defined.

(** C3, counterexample.  With two pending records and a limit of 0 the tick
    posts a batch of one record, where min(n, L) is 0. *)
Lemma flush_tick_limit_zero :
  ∃ w' batch,
    flushQueue (Scenario.workerWithLimit 0)
      (Scenario.world [Scenario.record "r1"; Scenario.record "r2"] None)
      = Ret Returned w'
    ∧ posted (trace w') = [batch]
    ∧ length batch = 1%nat
    ∧ Z.min 2 (m.EventAPILimit (Bag (Scenario.workerWithLimit 0))) = 0.
Proof.
  eexists _, _. split; [vm_compute; reflexivity|].
  split; [vm_compute; reflexivity|]. by vm_compute.
Qed.


(** C4, as amended.  When the stop signal shuts the queue down while a flush
    is draining n pending items, n within the batch limit, the queue keeps
    handing out the pending items: the tick returns without a panic, prints
    no shutdown line, takes all n items and hands them to the post as one
    batch, and the queue is shut down when it ends. *)
Theorem flush_during_shutdown (pw : JobsWorker) (w : World) (k : nat) :
  queue w ≠ [] →
  Z.of_nat (length (queue w)) <= m.EventAPILimit (Bag pw) →
  shuttingDown w = false →
  stopIn w = Some k →
  (k < length (queue w))%nat →
  ∃ w' delta,
    flushQueue pw w = Ret Returned w'
    ∧ trace w' = trace w ++ delta
    ∧ shuttingDown w' = true
    ∧ shutdown_logs delta = []
    ∧ queue w' = []
    ∧ network_calls delta =
        postCalls (marshalDataOk w) (marshalSchemaOk w)
          (bool_decide (m.JobSchemaName (Bag pw) ∈ schemas w))
          (m.JobSchemaName (Bag pw)) (queue w).
Proof.
  intros Hne HL Hopen Hstop Hk.
  destruct (flushQueue_spec pw w)
    as (w' & rest & Hrun & Ht & _ & Hl & Hq & Hs & Hn).
  assert (Hsize : batchSize (length (queue w)) 0 (m.EventAPILimit (Bag pw))
                  = length (queue w)).
  { unfold batchSize. destruct (queue w); [done|]. cbn [length] in *. lia. }
  rewrite Hsize in Hq, Hs, Hn.
  rewrite decide_False in Hn by done.
  rewrite drop_all in Hq. rewrite firstn_all in Hn.
  exists w', (EvStartBT "FlushJobEventsQueue" (nextBT w) :: rest).
  repeat split; try done.
  rewrite Hs, Hopen, Hstop. cbn. by apply bool_decide_eq_true.
Qed.

(** Five pending records, limit ten, stop signal before the third [Get]. *)
Lemma flush_during_shutdown_witness :
  ∃ w' delta,
    flushQueue (Scenario.workerOn []) (Scenario.world Scenario.fiveRecords (Some 2%nat))
      = Ret Returned w'
    ∧ trace w' = delta
    ∧ shuttingDown w' = true
    ∧ shutdown_logs delta = []
    ∧ queue w' = []
    ∧ posted delta = [Scenario.fiveRecords].
Proof.
  destruct (flush_during_shutdown (Scenario.workerOn [])
              (Scenario.world Scenario.fiveRecords (Some 2%nat)) 2)
    as (w' & delta & Hrun & Ht & Hs & Hl & Hq & Hn);
    [discriminate | vm_compute; discriminate | reflexivity | reflexivity
    | vm_compute; lia | ].
  exists w', delta. repeat split; try assumption.
  rewrite <- posted_network_calls, Hn. reflexivity.
Defined.

(** C4, counterexample.  Five pending records, limit ten, the queue shut
    down before the third [Get]: the flusher prints no shutdown line and does
    not stop draining; all five records are taken and posted. *)
Lemma shutdown_mid_drain_goes_unnoticed :
  ∃ w',
    flushQueue (Scenario.workerOn []) (Scenario.world Scenario.fiveRecords (Some 2%nat))
      = Ret Returned w'
    ∧ shuttingDown w' = true
    ∧ shutdown_logs (trace w') = []
    ∧ queue w' = []
    ∧ posted (trace w') = [Scenario.fiveRecords].
Proof.
  eexists. split; [vm_compute; reflexivity|]. by vm_compute.
Qed.

(** On a drained queue that is shutting down, [Get] answers [(nil, true)] and
    the type assertion in the [quit] branch panics.  [flushQueue] never gets
    there: it calls [getNextQueueItem] at most once per item it saw. *)
Lemma getNextQueueItem_on_drained_queue :
  panics (getNextQueueItem (set_shuttingDown true (Scenario.world [] None))) = true.
Proof. reflexivity. Qed.

(** C6.  When both marshalling steps succeed, the backend calls of
    [postJobRecords] are: schema-exists answered false, then create-schema
    once, then post-events, if the backend does not hold the schema;
    schema-exists answered true, then post-events, with no create-schema, if
    it does.  The same holds for a flush tick over a non-empty queue. *)
Theorem schema_provisioning (pw : JobsWorker) (w : World) :
  marshalDataOk w = true → marshalSchemaOk w = true →
  let schema := m.JobSchemaName (Bag pw) in
  let calls (batch : list JobSchema.t) :=
    if bool_decide (schema ∈ schemas w)
    then [EvSchemaExists schema true; EvPostAppDEvents schema batch]
    else [EvSchemaExists schema false; EvCreateSchema schema;
          EvPostAppDEvents schema batch] in
  (∀ objList, ∃ w' delta,
     postJobRecords pw objList w = Ret () w'
     ∧ trace w' = trace w ++ delta
     ∧ network_calls delta = calls objList)
  ∧ (queue w ≠ [] → ∃ w' delta batch,
       flushQueue pw w = Ret Returned w'
       ∧ trace w' = trace w ++ delta
       ∧ network_calls delta = calls batch).
Proof.
  intros Hd Hs schema calls. split.
  - intros objList.
    destruct (postJobRecords_spec pw objList w)
      as (w' & Hrun & _ & _ & (delta & Ht & Hn & _)).
    exists w', delta. rewrite Hd, Hs in Hn. by repeat split.
  - intros Hne.
    destruct (flushQueue_spec pw w)
      as (w' & rest & Hrun & Ht & _ & _ & _ & _ & Hn).
    rewrite decide_False in Hn by done. rewrite Hd, Hs in Hn.
    by eexists w', (EvStartBT "FlushJobEventsQueue" (nextBT w) :: rest), _.
Qed.

(** A post to a backend that does not hold the schema yet. *)
Lemma schema_provisioning_witness :
  ∃ w' delta,
    postJobRecords (Scenario.workerOn []) Scenario.fiveRecords (Scenario.world [] None)
      = Ret () w'
    ∧ trace w' = delta
    ∧ network_calls delta =
        [EvSchemaExists "jobs" false; EvCreateSchema "jobs";
         EvPostAppDEvents "jobs" Scenario.fiveRecords].
Proof.
  destruct (schema_provisioning (Scenario.workerOn []) (Scenario.world [] None)
              eq_refl eq_refl) as [Hpost _].
  destruct (Hpost Scenario.fiveRecords) as (w' & delta & Hrun & Ht & Hn).
  exists w', delta. repeat split; assumption.
Defined.

(** C10.  Every execution of [flushQueue] starts the business transaction
    as its first action and leaves through a [return] inside the function,
    either on an empty queue (no backend call) or after handing a batch to
    the post; no [StopBT] follows the [StartBT], so the handle stays open. *)
Theorem flushQueue_leaves_BT_open (pw : JobsWorker) (w : World) :
  ∃ w' rest,
    flushQueue pw w = Ret Returned w'
    ∧ trace w' = trace w ++ EvStartBT "FlushJobEventsQueue" (nextBT w) :: rest
    ∧ stopBT_calls rest = []
    ∧ (queue w = [] → network_calls rest = [])
    ∧ (queue w ≠ [] → marshalDataOk w = true → marshalSchemaOk w = true →
       length (posted rest) = 1%nat).
Proof.
  destruct (flushQueue_spec pw w)
    as (w' & rest & Hrun & Ht & Hb & _ & _ & _ & Hn).
  exists w', rest. repeat split; try done.
  - intros Hnil. by rewrite decide_True in Hn.
  - intros Hne Hd Hs. rewrite decide_False in Hn by done.
    rewrite <- posted_network_calls, Hn, Hd, Hs. by rewrite posted_postCalls.
Qed.

(** A tick over five pending records. *)
Lemma flushQueue_leaves_BT_open_witness :
  ∃ w' rest,
    flushQueue (Scenario.workerOn []) (Scenario.world Scenario.fiveRecords None)
      = Ret Returned w'
    ∧ trace w' = EvStartBT "FlushJobEventsQueue" 0%nat :: rest
    ∧ stopBT_calls rest = []
    ∧ length (posted rest) = 1%nat.
Proof.
  destruct (flushQueue_leaves_BT_open (Scenario.workerOn [])
              (Scenario.world Scenario.fiveRecords None))
    as (w' & rest & Hrun & Ht & Hb & _ & Hp).
  exists w', rest. repeat split; try assumption.
  apply Hp; [discriminate | reflexivity | reflexivity].
Defined.


(** C7, as amended.  When the typed batch client cannot be built,
    [initJobInformer] prints the error and returns nil without a panic, and
    [NewJobsWorker] returns normally a worker whose informer is nil: the
    failure reaches the log only. *)
Theorem init_failure_is_only_logged (bag : m.AppDBag) (config : RestConfig)
    (err : string) (w : World) :
  batchClientError config = Some err →
  let line := EvLog ("Issues when initializing Batch API client/ " +:+ err) in
  (∀ nw, K8sConfig nw = config →
     initJobInformer nw w = Ret (nw, None) (set_trace (trace w ++ [line]) w))
  ∧ ∃ pw w',
      NewJobsWorker bag config w = Ret pw w'
      ∧ informer pw = None
      ∧ trace w' = trace w ++ [line].
Proof.
  intros Herr line. split.
  - intros nw Hnw. unfold initJobInformer. rewrite Hnw, Herr. by go_unfold.
  - unfold NewJobsWorker, initJobInformer, WQ_New. cbn.
    rewrite Herr. go_unfold. cbn. by eexists _, _.
Qed.

(** Initialization with a configuration the batch client rejects. *)
Lemma init_failure_is_only_logged_witness :
  ∃ pw w',
    NewJobsWorker Scenario.bag Scenario.brokenConfig (Scenario.world [] None)
      = Ret pw w'
    ∧ informer pw = None
    ∧ trace w'
      = [EvLog "Issues when initializing Batch API client/ invalid configuration"].
Proof.
  destruct (init_failure_is_only_logged Scenario.bag Scenario.brokenConfig
              "invalid configuration" (Scenario.world [] None) eq_refl)
    as (_ & pw & w' & Hrun & Hi & Ht).
  exists pw, w'. repeat split; assumption.
Defined.

(** C7, counterexample.  With a rejected configuration [NewJobsWorker]
    returns a worker like any other, its informer nil; nothing tells the
    caller, and the first uses of the informer panic. *)
Lemma broken_config_yields_worker_without_informer :
  ∃ pw w',
    NewJobsWorker Scenario.bag Scenario.brokenConfig (Scenario.world [] None)
      = Ret pw w'
    ∧ informer pw = None
    ∧ panics (HasSynced pw w') = true
    ∧ panics (buildAppDMetrics pw w') = true.
Proof.
  eexists _, _. split; [vm_compute; reflexivity|]. by vm_compute.
Qed.

(** C8.  The informer of this worker lists and watches jobs, and the
    aggregation pass takes the objects of its store for jobs; the three
    callbacks take the object they are handed for a node.  On every job
    object (for an update: the old object a job, the new object anything)
    each callback panics on its type assertion before it prints anything,
    where the assertion of the pass accepts the same object. *)
Theorem callbacks_panic_on_jobs (nw : JobsWorker) (j : batchTypes.Job)
    (objNew : Object) (w : World) :
  let msg := "interface conversion: interface {} is not *v1.Node" in
  onNewJob nw (ObjJob j) w = Panic msg w
  ∧ onDeleteJob nw (ObjJob j) w = Panic msg w
  ∧ onUpdateJob nw (ObjJob j) objNew w = Panic msg w
  ∧ assertJob (ObjJob j) w = Ret j w.
Proof. done. Qed.

(** Only a node object passes: the callback prints its line and returns. *)
Example node_object_is_logged :
  onNewJob (Scenario.workerOn []) (ObjNode Scenario.node) (Scenario.world [] None)
  = Ret () (set_trace [EvLog ("Added Job: n1" +:+ nl)] (Scenario.world [] None)).
Proof. reflexivity. Qed.

(** Neither is any other object logged: nil, or a value of a type that is
    neither a job nor a node, makes each callback panic as well. *)
Example unexpected_object_crashes_callbacks :
  let nw := Scenario.workerOn Scenario.snapshot in
  let w := Scenario.world [] None in
  panics (onNewJob nw ObjNil w) = true
  ∧ panics (onDeleteJob nw (ObjOther "*v1.Pod") w) = true
  ∧ panics (onUpdateJob nw ObjNil (ObjNode Scenario.node) w) = true
  ∧ trace (world_of (onNewJob nw ObjNil w)) = [].
Proof. by vm_compute. Qed.

(** * Further properties of the worker *)

Section AggregationPass.

Lemma lookupOrCreate_dom k fresh (sm : gmap string ClusterJobMetrics.t) :
  dom (lookupOrCreate k fresh sm).2 = {[k]} ∪ dom sm.
Proof.
  unfold lookupOrCreate. destruct (sm !! k) eqn:Hk; cbn.
  - assert (k ∈ dom sm) by (apply elem_of_dom; eauto). set_solver.
  - apply dom_insert_L.
Qed.

Lemma lookupOrCreate_old k fresh (sm : gmap string ClusterJobMetrics.t) k' b :
  sm !! k' = Some b → (lookupOrCreate k fresh sm).2 !! k' = Some b.
Proof.
  unfold lookupOrCreate. destruct (sm !! k) eqn:Hk; cbn; [done|].
  intros H. rewrite lookup_insert_ne; [done|]. intros ->. congruence.
Qed.

Lemma lookupOrCreate_new k fresh (sm : gmap string ClusterJobMetrics.t) :
  sm !! k = None → (lookupOrCreate k fresh sm).2 !! k = Some fresh.
Proof.
  unfold lookupOrCreate. intros ->. cbn. apply lookup_insert_eq.
Qed.

Lemma lookupOrCreate_other k k' fresh (sm : gmap string ClusterJobMetrics.t) :
  k ≠ k' → (lookupOrCreate k fresh sm).2 !! k' = sm !! k'.
Proof.
  intros Hne. unfold lookupOrCreate. destruct (sm !! k); cbn; [done|].
  by rewrite lookup_insert_ne.
Qed.

Lemma lookupOrCreate_value k fresh (sm : gmap string ClusterJobMetrics.t) :
  (lookupOrCreate k fresh sm).1 = default fresh (sm !! k).
Proof. unfold lookupOrCreate. by destruct (sm !! k). Qed.

Lemma summarize_informer pw jobObject :
  informer (summarize pw jobObject).1 = informer pw.
Proof.
  unfold summarize.
  destruct (lookupOrCreate m.ALL _ _) as [summary sm].
  by destruct (lookupOrCreate (JobSchema.Namespace jobObject) _ sm).
Qed.

Lemma summarize_dom pw jobObject :
  dom (SummaryMap (summarize pw jobObject).1)
  = {[m.ALL; JobSchema.Namespace jobObject]} ∪ dom (SummaryMap pw).
Proof.
  rewrite summarize_SummaryMap, !lookupOrCreate_dom. set_solver.
Qed.

(** X1.  [summarize] never changes a bucket that is in the map: all it does
    to the map is to add the bucket of "all" and the bucket of the record's
    namespace, as the constructor returns them, when they are missing.  The
    counts of the record only reach the two locals. *)
Theorem summarize_only_adds_buckets (pw : JobsWorker) (jobObject : JobSchema.t) :
  let ns := JobSchema.Namespace jobObject in
  let pw' := (summarize pw jobObject).1 in
  Bag pw' = Bag pw
  ∧ informer pw' = informer pw
  ∧ dom (SummaryMap pw') = {[m.ALL; ns]} ∪ dom (SummaryMap pw)
  ∧ (∀ k b, SummaryMap pw !! k = Some b → SummaryMap pw' !! k = Some b)
  ∧ (∀ k, k = m.ALL ∨ k = ns → SummaryMap pw !! k = None →
       SummaryMap pw' !! k = Some (NewClusterJobMetrics (Bag pw) m.ALL k))
  ∧ (summarize pw jobObject).2.1
    = bump (default (NewClusterJobMetrics (Bag pw) m.ALL m.ALL)
              (SummaryMap pw !! m.ALL)) jobObject.
Proof.
  intros ns pw'. split; [apply summarize_Bag|].
  split; [apply summarize_informer|].
  split; [apply summarize_dom|].
  unfold pw'. rewrite summarize_SummaryMap. fold ns.
  split; [intros k b H; by do 2 apply lookupOrCreate_old|].
  split.
  - intros k Hk Hnone.
    destruct (decide (k = ns)) as [->|Hne].
    + destruct (decide (ns = m.ALL)) as [Hall|Hall].
      * rewrite Hall in *. apply lookupOrCreate_old.
        by apply lookupOrCreate_new.
      * apply lookupOrCreate_new.
        by rewrite lookupOrCreate_other by done.
    + destruct Hk as [-> | ->]; [|done].
      apply lookupOrCreate_old. by apply lookupOrCreate_new.
  - unfold summarize.
    pose proof (lookupOrCreate_value m.ALL
                  (NewClusterJobMetrics (Bag pw) m.ALL m.ALL) (SummaryMap pw)) as Hv.
    destruct (lookupOrCreate m.ALL _ _) as [summary sm]. cbn in Hv.
    destruct (lookupOrCreate _ _ sm). cbn. by rewrite Hv.
Qed.

Lemma summarize_only_adds_buckets_witness :
  let pw := Scenario.workerOn Scenario.snapshot in
  let r := Scenario.recordOf (Scenario.job "j1" "a" 1 0 0 None) in
  SummaryMap (summarize pw r).1 !! "a"
  = Some (NewClusterJobMetrics Scenario.bag m.ALL "a").
Proof.
  intros pw r.
  destruct (summarize_only_adds_buckets pw r) as (_ & _ & _ & _ & Hnew & _).
  apply (Hnew "a"); [by right | reflexivity].
Defined.


Lemma processObject_world (pw : JobsWorker) (j : batchTypes.Job) (w : World) :
  let w' := world_of (processObject pw j w) in
  let running :=
    bool_decide (is_Some (batchTypes.StartTime (batchTypes.Status j)))
    && bool_decide (batchTypes.CompletionTime (batchTypes.Status j) = None) in
  queue w' = queue w ∧ shuttingDown w' = shuttingDown w ∧ stopIn w' = stopIn w
  ∧ nextBT w' = nextBT w ∧ schemas w' = schemas w ∧ trace w' = trace w
  ∧ clock w' = clock w
  ∧ clockReads w' = (if running then S (clockReads w) else clockReads w).
Proof.
  unfold processObject.
  destruct j as [meta [p c a b] [st ct ac su fa]]; cbn.
  destruct st, a, c, b, p; destruct ct; cbn; by repeat split.
Qed.

Lemma processObject_Namespace (pw : JobsWorker) (j : batchTypes.Job)
    (w w' : World) (rec : JobSchema.t) :
  processObject pw j w = Ret rec w' →
  JobSchema.Namespace rec = metav1.Namespace (batchTypes.ObjectMeta j).
Proof.
  unfold processObject.
  destruct j as [meta [p c a b] [st ct ac su fa]]; cbn.
  destruct st, a, c, b, p; destruct ct; cbn; try discriminate;
    by intros [= <- <-].
Qed.

Lemma rangeStore_outcome objs : ∀ pw count w,
  returns (rangeStore pw count objs w) = forallb passable objs
  ∧ panics (rangeStore pw count objs w) = negb (forallb passable objs)
  ∧ trace (world_of (rangeStore pw count objs w)) = trace w
  ∧ nextBT (world_of (rangeStore pw count objs w)) = nextBT w
  ∧ queue (world_of (rangeStore pw count objs w)) = queue w.
Proof.
  induction objs as [|obj objs IH]; intros pw count w; [done|].
  cbn [rangeStore forallb]. unfold mbind, Go_bind.
  destruct obj as [|n|j|kind]; cbn; try done.
  pose proof (processObject_returns_iff pw j w) as Hret.
  pose proof (processObject_never_blocks pw j w) as Hnb.
  pose proof (processObject_world pw j w) as (Hq & _ & _ & Hbt & _ & Ht & _).
  destruct (processObject pw j w) as [jobSchema w1|msg w1|w1]; cbn in *.
  - rewrite <- Hret. cbn. rewrite <- Ht, <- Hbt, <- Hq. apply IH.
  - by rewrite <- Hret.
  - done.
Qed.

Lemma rangeStore_dom objs : ∀ pw count w pw' count' w',
  rangeStore pw count objs w = Ret (pw', count') w' →
  informer pw' = informer pw
  ∧ dom (SummaryMap pw') =
      dom (SummaryMap pw)
      ∪ (if objs is [] then ∅ else {[m.ALL]})
      ∪ list_to_set (omap namespaceOf objs).
Proof.
  induction objs as [|obj objs IH]; intros pw count w pw' count' w' Hrun.
  - cbn in Hrun. injection Hrun as <- <- <-. split; [done|]. set_solver.
  - cbn in Hrun. unfold mbind, Go_bind in Hrun.
    destruct obj as [|n|j|kind]; cbn in Hrun; try discriminate.
    destruct (processObject pw j w) as [jobSchema w1|msg w1|w1] eqn:Hj;
      try discriminate.
    apply processObject_Namespace in Hj.
    apply IH in Hrun as [Hi Hd].
    pose proof (summarize_informer pw jobSchema) as Hi'.
    pose proof (summarize_dom pw jobSchema) as Hd'.
    rewrite Hi' in Hi. split; [done|].
    rewrite Hd, Hd', Hj. cbn [omap namespaceOf list_to_set].
    destruct objs; set_solver.
Qed.

End AggregationPass.

Section MetricList.

Lemma addMetricToList_fold (l : list (string * ClusterJobMetrics.t)) : ∀ items,
  foldl (λ items kv, addMetricToList kv.2 items) items l
  = items ++ (l ≫= λ kv, (λ nf, m.NewAppDMetric nf.1 (nf.2 kv.2)
                              (ClusterJobMetrics.Path kv.2)) <$> metricFields).
Proof.
  induction l as [|kv l IH]; intros items; cbn [foldl].
  - by rewrite app_nil_r.
  - rewrite IH. unfold addMetricToList. rewrite <- app_assoc. reflexivity.
Qed.

Lemma builAppDMetricsList_items (pw : JobsWorker) :
  m.Items (builAppDMetricsList pw)
  = map_to_list (SummaryMap pw) ≫= λ kv,
      (λ nf, m.NewAppDMetric nf.1 (nf.2 kv.2) (ClusterJobMetrics.Path kv.2))
        <$> metricFields.
Proof.
  unfold builAppDMetricsList. cbn [m.Items]. by rewrite addMetricToList_fold.
Qed.



(** X2.  The metric list holds exactly five metrics for every bucket of the
    summary map, one for each of JobCount, ActiveCount, SuccessCount,
    FailedCount and Duration: its value is that field of the bucket, its path
    the bucket's path followed by the field name, its aggregation type
    OBSERVATION.  Nothing is emitted for Namespace, Path or Metadata. *)
Theorem builAppDMetricsList_metrics (pw : JobsWorker) :
  length (m.Items (builAppDMetricsList pw)) = (5 * size (SummaryMap pw))%nat
  ∧ ∀ metric, metric ∈ m.Items (builAppDMetricsList pw) ↔
      ∃ k b name field,
        SummaryMap pw !! k = Some b
        ∧ (name, field) ∈ metricFields
        ∧ metric = {| m.MetricName := name; m.MetricValue := field b;
                      m.MetricPath := ClusterJobMetrics.Path b +:+ name;
                      m.MetricAggregationType := "OBSERVATION" |}.
Proof.
  rewrite builAppDMetricsList_items. split.
  - rewrite <- length_map_to_list.
    induction (map_to_list (SummaryMap pw)) as [|kv l IH]; [done|].
    rewrite bind_cons, length_app, IH, length_fmap.
    unfold metricFields. cbn [length]. lia.
  - intros metric. rewrite list_elem_of_bind. split.
    + intros ([k b] & Hin & Hkb). apply elem_of_map_to_list in Hkb.
      apply list_elem_of_fmap in Hin as ([name field] & -> & Hnf).
      by exists k, b, name, field.
    + intros (k & b & name & field & Hkb & Hnf & ->).
      exists (k, b). split; [|by apply elem_of_map_to_list].
      apply list_elem_of_fmap. by exists (name, field).
Qed.

Lemma builAppDMetricsList_metrics_witness :
  let pw := set_SummaryMap
              {[ "all" := NewClusterJobMetrics Scenario.bag m.ALL "all" ]}
              (Scenario.workerOn []) in
  m.NewAppDMetric "JobCount" 0
    (ClusterJobMetrics.Path (NewClusterJobMetrics Scenario.bag m.ALL "all"))
  ∈ m.Items (builAppDMetricsList pw).
Proof.
  intros pw. apply (builAppDMetricsList_metrics pw).
  exists "all", (NewClusterJobMetrics Scenario.bag m.ALL "all"),
    "JobCount", ClusterJobMetrics.JobCount.
  split; [reflexivity|]. split; [by left|reflexivity].
Defined.

End MetricList.

Section PassOutcome.

Lemma buildAppDMetrics_unfold (pw : JobsWorker) (w : World) :
  let w0 := set_trace
              (trace w ++ [EvStartBT "SendJobMetrics" (nextBT w);
                           EvLog ("Time to send job metrics. Current cache:" +:+ nl)])
              (set_nextBT (S (nextBT w)) w) in
  buildAppDMetrics pw w =
  match informer pw with
  | None => Panic "invalid memory address or nil pointer dereference" w0
  | Some i =>
      match rangeStore (set_SummaryMap ∅ pw) 0 (store i) w0 with
      | Ret (pw', count) w1 =>
          let ml := builAppDMetricsList pw' in
          Ret pw'
            (set_trace
               (trace w1 ++
                  [EvLog ("Total: " +:+ pretty count +:+ nl);
                   EvLog ("Ready to push " +:+ pretty (length (m.Items ml))
                            +:+ " metrics" +:+ nl);
                   EvPostMetrics ml; EvStopBT (nextBT w)]) w1)
      | Panic msg w1 => Panic msg w1
      | Blocked w1 => Blocked w1
      end
  end.
Proof.
  intros w0. unfold buildAppDMetrics, StartBT. go_unfold. cbn.
  unfold set_trace at 1 2. cbn. rewrite <- app_assoc. cbn [app]. fold w0.
  destruct (informer pw) as [i|]; [|done]. cbn.
  destruct (rangeStore _ _ _ _) as [[pw' count] w1|msg w1|w1]; try done.
  cbn. unfold set_trace. cbn. by rewrite <- !app_assoc.
Qed.


Lemma buildAppDMetrics_returns (pw : JobsWorker) (w : World) :
  let ok := match informer pw with
            | Some i => forallb passable (store i)
            | None => false
            end in
  returns (buildAppDMetrics pw w) = ok
  ∧ panics (buildAppDMetrics pw w) = negb ok.
Proof.
  cbn zeta. rewrite buildAppDMetrics_unfold. cbn zeta.
  destruct (informer pw) as [i|]; [|done].
  match goal with
  | |- context [rangeStore ?p ?c ?o ?x] =>
      pose proof (rangeStore_outcome o p c x) as (Hr & Hp & _);
      destruct (rangeStore p c o x) as [[pw' count] w1|msg w1|w1]
  end; by cbn in *.
Qed.

Lemma buildAppDMetrics_trace (pw pw' : JobsWorker) (w w' : World) :
  buildAppDMetrics pw w = Ret pw' w' →
  ∃ line1 line2 line3,
    trace w' = trace w ++ [EvStartBT "SendJobMetrics" (nextBT w);
                           EvLog line1; EvLog line2; EvLog line3;
                           EvPostMetrics (builAppDMetricsList pw');
                           EvStopBT (nextBT w)]
    ∧ queue w' = queue w
    ∧ nextBT w' = S (nextBT w).
Proof.
  rewrite buildAppDMetrics_unfold. cbn zeta.
  destruct (informer pw) as [i|]; [|done].
  match goal with
  | |- context [rangeStore ?p ?c ?o ?x] =>
      pose proof (rangeStore_outcome o p c x) as (_ & _ & Ht & Hbt & Hq);
      destruct (rangeStore p c o x) as [[pw1 count] w1|msg w1|w1]
  end; try done.
  intros [= <- <-]. cbn in *. rewrite Ht, <- app_assoc.
  eexists _, _, _. split; [reflexivity|]. by split.
Qed.

Lemma buildAppDMetrics_panic_trace (pw : JobsWorker) (w : World) :
  panics (buildAppDMetrics pw w) = true →
  trace (world_of (buildAppDMetrics pw w))
  = trace w ++ [EvStartBT "SendJobMetrics" (nextBT w);
                EvLog ("Time to send job metrics. Current cache:" +:+ nl)].
Proof.
  rewrite buildAppDMetrics_unfold. cbn zeta.
  destruct (informer pw) as [i|]; [|done].
  match goal with
  | |- context [rangeStore ?p ?c ?o ?x] =>
      pose proof (rangeStore_outcome o p c x) as (_ & _ & Ht & _);
      destruct (rangeStore p c o x) as [[pw1 count] w1|msg w1|w1]
  end; done.
Qed.

Lemma buildAppDMetrics_map (pw pw' : JobsWorker) (w w' : World) :
  buildAppDMetrics pw w = Ret pw' w' →
  ∃ i,
    informer pw = Some i
    ∧ informer pw' = Some i
    ∧ Bag pw' = Bag pw
    ∧ dom (SummaryMap pw') =
        (if store i is [] then ∅ else {[m.ALL]})
        ∪ list_to_set (omap namespaceOf (store i))
    ∧ untouched (Bag pw) (SummaryMap pw').
Proof.
  intros Hrun.
  destruct (buildAppDMetrics_inv _ _ _ _ Hrun) as (i & Hi & HB & HU & _).
  rewrite buildAppDMetrics_unfold in Hrun. cbn zeta in Hrun.
  rewrite Hi in Hrun.
  match type of Hrun with
  | context [rangeStore ?p ?c ?o ?x] =>
      destruct (rangeStore p c o x) as [[pw1 count] w1|msg w1|w1] eqn:Hrs
  end; try done.
  injection Hrun as <- <-.
  apply rangeStore_dom in Hrs as [Hinf Hdom]. cbn in Hinf, Hdom.
  exists i. split; [done|]. split; [congruence|]. split; [done|].
  split; [rewrite Hdom; set_solver|exact HU].
Qed.

Lemma forallb_passable (objs : list Object) :
  forallb passable objs = true ↔
  Forall (λ obj, ∃ j, obj = ObjJob j ∧ derefsPresent j = true) objs.
Proof.
  induction objs as [|obj objs IH]; cbn [forallb]; [by split|].
  rewrite andb_true_iff, Forall_cons, IH.
  enough (passable obj = true ↔ ∃ j, obj = ObjJob j ∧ derefsPresent j = true)
    by tauto.
  destruct obj as [|n|j|kind]; cbn; split; try done;
    try (by intros (? & ? & _)).
  - by exists j.
  - by intros (? & [= <-] & ?).
Qed.

(** X3.  The aggregation pass returns exactly when the informer is set and
    every cached object is a job with all the pointers set that
    [processObject] dereferences; in every other case it panics (it never
    waits). *)
Theorem pass_returns_iff (pw : JobsWorker) (w : World) :
  (returns (buildAppDMetrics pw w) = true ↔
     ∃ i, informer pw = Some i
          ∧ Forall (λ obj, ∃ j, obj = ObjJob j ∧ derefsPresent j = true) (store i))
  ∧ (returns (buildAppDMetrics pw w) = false → panics (buildAppDMetrics pw w) = true).
Proof.
  destruct (buildAppDMetrics_returns pw w) as [Hr Hp]. rewrite Hr, Hp. split.
  - destruct (informer pw) as [i|]; [|split; [done|by intros (? & ? & _)]].
    rewrite forallb_passable. split.
    + intros Hall. by exists i.
    + by intros (i' & [= <-] & Hall).
  - by intros ->.
Qed.

Lemma pass_returns_iff_witness :
  returns (buildAppDMetrics (Scenario.workerOn Scenario.snapshot)
             (Scenario.world [] None)) = true.
Proof.
  apply (pass_returns_iff (Scenario.workerOn Scenario.snapshot)
           (Scenario.world [] None)).
  eexists. split; [reflexivity|]. apply forallb_passable. reflexivity.
Defined.

(** X4.  A pass that returns has made exactly three calls, in this order:
    [StartBT], one [PostMetrics] with the metric list of the summary map it
    leaves behind, and [StopBT] on the handle that [StartBT] gave; it has
    not touched the work queue. *)
Theorem pass_calls (pw pw' : JobsWorker) (w w' : World) :
  buildAppDMetrics pw w = Ret pw' w' →
  ∃ delta,
    trace w' = trace w ++ delta
    ∧ calls delta = [EvStartBT "SendJobMetrics" (nextBT w);
                     EvPostMetrics (builAppDMetricsList pw');
                     EvStopBT (nextBT w)]
    ∧ queue w' = queue w
    ∧ nextBT w' = S (nextBT w).
Proof.
  intros Hrun.
  destruct (buildAppDMetrics_trace _ _ _ _ Hrun)
    as (l1 & l2 & l3 & Ht & Hq & Hbt).
  eexists. split; [exact Ht|]. by repeat split.
Qed.

Lemma pass_calls_witness :
  ∃ pw' w',
    buildAppDMetrics (Scenario.workerOn Scenario.snapshot) (Scenario.world [] None)
      = Ret pw' w'
    ∧ calls (trace w') = [EvStartBT "SendJobMetrics" 0%nat;
                          EvPostMetrics (builAppDMetricsList pw');
                          EvStopBT 0%nat].
Proof.
  destruct (buildAppDMetrics _ _) as [pw' w'|msg w'|w'] eqn:Hrun;
    [|vm_compute in Hrun; discriminate..].
  exists pw', w'. split; [reflexivity|].
  destruct (pass_calls _ _ _ _ Hrun) as (delta & Ht & Hc & _).
  cbn in Ht. rewrite Ht. exact Hc.
Defined.

(** X5.  A pass that panics stops right after its first printed line: the
    business transaction it started is never stopped, no metric is posted
    and the work queue is as it was. *)
Theorem pass_panic_leaves_BT_open (pw : JobsWorker) (w : World) :
  panics (buildAppDMetrics pw w) = true →
  let w' := world_of (buildAppDMetrics pw w) in
  ∃ delta,
    trace w' = trace w ++ delta
    ∧ calls delta = [EvStartBT "SendJobMetrics" (nextBT w)]
    ∧ stopBT_calls delta = []
    ∧ postedMetrics delta = [].
Proof.
  intros Hp w'. eexists. split; [by apply buildAppDMetrics_panic_trace|].
  by repeat split.
Qed.

Lemma pass_panic_leaves_BT_open_witness :
  calls (trace (world_of (buildAppDMetrics
                            (Scenario.workerOn [ObjJob Scenario.jobWithoutDeadline])
                            (Scenario.world [] None))))
  = [EvStartBT "SendJobMetrics" 0%nat].
Proof.
  destruct (pass_panic_leaves_BT_open
              (Scenario.workerOn [ObjJob Scenario.jobWithoutDeadline])
              (Scenario.world [] None) eq_refl) as (delta & Ht & Hc & _).
  cbn in Ht. rewrite Ht. exact Hc.
Defined.

(** X6.  After a pass that returns, the summary map has a bucket for "all"
    (unless the cache was empty) and one for the namespace of every cached
    job, and no other; every bucket is as the constructor returned it, so
    every metric the pass posts has the value 0, whatever the jobs report. *)
Theorem pass_buckets (pw pw' : JobsWorker) (w w' : World) :
  buildAppDMetrics pw w = Ret pw' w' →
  ∃ i,
    informer pw = Some i
    ∧ dom (SummaryMap pw') =
        (if store i is [] then ∅ else {[m.ALL]})
        ∪ list_to_set (omap namespaceOf (store i))
    ∧ (∀ k b, SummaryMap pw' !! k = Some b →
         b = NewClusterJobMetrics (Bag pw) m.ALL k)
    ∧ Forall (λ metric, m.MetricValue metric = 0)
        (m.Items (builAppDMetricsList pw')).
Proof.
  intros Hrun.
  destruct (buildAppDMetrics_map _ _ _ _ Hrun) as (i & Hi & _ & _ & Hd & HU).
  exists i. split; [done|]. split; [done|]. split; [exact HU|].
  rewrite builAppDMetricsList_items. apply Forall_forall. intros metric Hin.
  apply list_elem_of_bind in Hin as ([k b] & Hin & Hkb).
  apply elem_of_map_to_list in Hkb.
  apply list_elem_of_fmap in Hin as ([name field] & -> & Hnf).
  cbn. rewrite (HU k b Hkb). unfold metricFields in Hnf.
  repeat (apply elem_of_cons in Hnf as [[= -> ->]|Hnf]; [reflexivity|]).
  by apply elem_of_nil in Hnf.
Qed.

Lemma pass_buckets_witness :
  ∃ pw' w',
    buildAppDMetrics (Scenario.workerOn Scenario.snapshot) (Scenario.world [] None)
      = Ret pw' w'
    ∧ dom (SummaryMap pw') = {[ "all"; "a"; "b" ]}
    ∧ Forall (λ metric, m.MetricValue metric = 0)
        (m.Items (builAppDMetricsList pw')).
Proof.
  destruct (buildAppDMetrics _ _) as [pw' w'|msg w'|w'] eqn:Hrun;
    [|vm_compute in Hrun; discriminate..].
  exists pw', w'. split; [reflexivity|].
  destruct (pass_buckets _ _ _ _ Hrun) as (i & Hi & Hd & _ & Hz).
  injection Hi as <-. split; [|exact Hz].
  rewrite Hd. cbn. set_solver.
Defined.

End PassOutcome.

Section RecordTransform.

Lemma string_app_cons (x : Ascii.ascii) (a b : string) :
  String x a +:+ b = String x (a +:+ b).
Proof. reflexivity. Qed.

Lemma string_app_assoc (a b c : string) : (a +:+ b) +:+ c = a +:+ b +:+ c.
Proof.
  induction a as [|x a IH]; [done|]. by rewrite !string_app_cons, IH.
Qed.

Lemma string_app_nil_r (a : string) : a +:+ "" = a.
Proof. induction a as [|x a IH]; [done|]. by rewrite string_app_cons, IH. Qed.

Lemma string_app_length (a b : string) :
  String.length (a +:+ b) = (String.length a + String.length b)%nat.
Proof.
  induction a as [|x a IH]; [done|].
  rewrite string_app_cons. cbn [String.length]. by rewrite IH.
Qed.

Lemma joinPairs_from (l : list (string * string)) : ∀ sb,
  foldl (λ sb kv, sb +:+ kv.1 +:+ ":" +:+ kv.2 +:+ ";") sb l
  = sb +:+ joinPairs l.
Proof.
  unfold joinPairs. induction l as [|kv l IH]; intros sb; cbn [foldl].
  - by rewrite string_app_nil_r.
  - rewrite (IH (sb +:+ _)), (IH ("" +:+ _)).
    change ("" +:+ ?x) with x. by rewrite string_app_assoc.
Qed.

(** X7.  The label string that [processObject] builds is the concatenation
    of one "key:value;" piece per label, in the order the map is iterated;
    no label gives the empty string.  Its length does not depend on that
    order. *)
Theorem joinPairs_pieces (l1 l2 : list (string * string)) :
  joinPairs [] = ""
  ∧ (∀ k v, joinPairs [(k, v)] = k +:+ ":" +:+ v +:+ ";")
  ∧ joinPairs (l1 ++ l2) = joinPairs l1 +:+ joinPairs l2
  ∧ (l1 ≡ₚ l2 → String.length (joinPairs l1) = String.length (joinPairs l2)).
Proof.
  split; [done|]. split; [done|].
  assert (Happ : ∀ a b, joinPairs (a ++ b) = joinPairs a +:+ joinPairs b).
  { intros a b. unfold joinPairs at 1. rewrite foldl_app.
    fold (joinPairs a). apply joinPairs_from. }
  split; [apply Happ|].
  assert (Hlen : ∀ l, String.length (joinPairs l)
                      = sum_list ((λ kv, String.length kv.1
                                         + String.length kv.2 + 2)%nat <$> l)).
  { induction l as [|[k v] l IH]; [done|].
    change ((k, v) :: l) with ([(k, v)] ++ l).
    rewrite Happ, string_app_length, IH. cbn [fmap list_fmap app sum_list].
    f_equal. cbn. rewrite !string_app_length. cbn. lia. }
  intros Hperm. rewrite !Hlen. by rewrite Hperm.
Qed.

Lemma joinPairs_pieces_witness :
  String.length (joinPairs [("app", "batch"); ("tier", "db")])
  = String.length (joinPairs [("tier", "db"); ("app", "batch")]).
Proof.
  destruct (joinPairs_pieces [("app", "batch"); ("tier", "db")]
              [("tier", "db"); ("app", "batch")]) as (_ & _ & _ & Hlen).
  apply Hlen. apply perm_swap.
Defined.

(** X8.  [processObject] has no effect on the world besides reading the
    clock: it prints nothing, calls nothing and leaves the queue alone,
    whether it returns or panics.  It reads the clock once when the job has a
    start time and no completion time, and not at all otherwise. *)
Theorem processObject_only_reads_the_clock (pw : JobsWorker)
    (j : batchTypes.Job) (w : World) :
  let w' := world_of (processObject pw j w) in
  let running :=
    bool_decide (is_Some (batchTypes.StartTime (batchTypes.Status j)))
    && bool_decide (batchTypes.CompletionTime (batchTypes.Status j) = None) in
  trace w' = trace w ∧ queue w' = queue w ∧ shuttingDown w' = shuttingDown w
  ∧ nextBT w' = nextBT w ∧ schemas w' = schemas w
  ∧ clockReads w' = (if running then S (clockReads w) else clockReads w).
Proof.
  destruct (processObject_world pw j w) as (Hq & Hs & _ & Hbt & Hsc & Ht & _ & Hc).
  by repeat split.
Qed.

(** X9.  The record that [processObject] returns copies name, namespace and
    the three status counts of the job, carries the dereferenced spec limits,
    and names the cluster after the job's own cluster name or, when that is
    empty, after the application name of the bag. *)
Theorem processObject_fields (pw : JobsWorker) (j : batchTypes.Job)
    (w w' : World) (rec : JobSchema.t) :
  processObject pw j w = Ret rec w' →
  let meta := batchTypes.ObjectMeta j in
  let status := batchTypes.Status j in
  let spec := batchTypes.Spec j in
  JobSchema.Name rec = metav1.Name meta
  ∧ JobSchema.Namespace rec = metav1.Namespace meta
  ∧ JobSchema.ClusterName rec
    = (if decide (metav1.ClusterName meta = "") then m.AppName (Bag pw)
       else metav1.ClusterName meta)
  ∧ JobSchema.Labels rec = joinPairs (metav1.Labels meta)
  ∧ JobSchema.Annotations rec = joinPairs (metav1.Annotations meta)
  ∧ (JobSchema.Active rec, JobSchema.Success rec, JobSchema.Failed rec)
    = (batchTypes.Active status, batchTypes.Succeeded status,
       batchTypes.Failed status)
  ∧ batchTypes.ActiveDeadlineSeconds spec = Some (JobSchema.ActiveDeadlineSeconds rec)
  ∧ batchTypes.Completions spec = Some (JobSchema.Completions rec)
  ∧ batchTypes.BackoffLimit spec = Some (JobSchema.BackoffLimit rec)
  ∧ batchTypes.Parallelism spec = Some (JobSchema.Parallelism rec).
Proof.
  unfold processObject.
  destruct j as [meta [p c a b] [st ct ac su fa]]; cbn.
  destruct st, a, c, b, p; destruct ct; cbn; try discriminate;
    intros [= <- <-]; cbn; repeat split; try done;
    by repeat case_decide.
Qed.

Lemma processObject_fields_witness :
  ∃ rec w',
    processObject (Scenario.workerOn [])
      (Scenario.job "j1" "a" 1 0 0 None) (Scenario.world [] None) = Ret rec w'
    ∧ JobSchema.ClusterName rec = "cluster"
    ∧ JobSchema.Labels rec = "app:batch;".
Proof.
  destruct (processObject _ _ _) as [rec w'|msg w'|w'] eqn:Hrun;
    [|vm_compute in Hrun; discriminate..].
  exists rec, w'. split; [reflexivity|].
  destruct (processObject_fields _ _ _ _ _ Hrun) as (_ & _ & Hc & Hl & _).
  split; [exact Hc | exact Hl].
Defined.

(** X10.  The duration is not clamped: for a job with a completion time it
    is negative exactly when the completion time lies before the start time,
    and for a running job exactly when the clock shows a time before the
    start time. *)
Theorem processObject_Duration_sign (pw : JobsWorker) (j : batchTypes.Job)
    (w w' : World) (rec : JobSchema.t) (start : time.Time) :
  processObject pw j w = Ret rec w' →
  batchTypes.StartTime (batchTypes.Status j) = Some start →
  let finish := default (clock w (clockReads w))
                  (batchTypes.CompletionTime (batchTypes.Status j)) in
  ((JobSchema.Duration rec < 0)%Q ↔ finish < start)
  ∧ ((JobSchema.Duration rec == 0)%Q ↔ finish = start).
Proof.
  intros Hrun Hstart finish.
  assert (HD : JobSchema.Duration rec = time.Seconds (time.Sub finish start)).
  { unfold finish. clear finish. revert Hrun Hstart. unfold processObject.
    destruct j as [meta [p c a b] [st ct ac su fa]]; cbn.
    destruct st as [s|]; [|discriminate].
    destruct a, c, b, p; destruct ct; cbn; try discriminate;
      by intros [= <- <-] [= <-]. }
  pose proof (Seconds_sgn (time.Sub finish start)) as Hsgn.
  rewrite <- HD, Sub_clamp in Hsgn.
  unfold Qlt, Qeq. cbn. rewrite !Z.mul_1_r.
  destruct (Z.sgn_spec (Qnum (JobSchema.Duration rec)))
    as [[? ?]|[[? ?]|[? ?]]],
    (Z.sgn_spec (Z.max (- 2 ^ 63) (Z.min (2 ^ 63 - 1) (finish - start))))
    as [[? ?]|[[? ?]|[? ?]]]; lia.
Qed.

Lemma processObject_Duration_sign_witness :
  ∃ rec w',
    processObject (Scenario.workerOn [])
      (Scenario.job "j5" "a" 0 1 0 (Some 40000000000)) (Scenario.world [] None)
      = Ret rec w'
    ∧ (JobSchema.Duration rec < 0)%Q.
Proof.
  destruct (processObject _ _ _) as [rec w'|msg w'|w'] eqn:Hrun;
    [|vm_compute in Hrun; discriminate..].
  exists rec, w'. split; [reflexivity|].
  apply (processObject_Duration_sign _ _ _ _ _ 100000000000 Hrun eq_refl).
  reflexivity.
Defined.

End RecordTransform.

Section QueueItems.

(** X11.  On a queue that is not empty [getNextQueueItem] returns the oldest
    item with [ok = true], takes exactly that item off the queue, and passes
    it to [Forget] and then to [Done], whether or not the queue is shutting
    down. *)
Theorem getNextQueueItem_takes_head (w : World) (item : JobSchema.t)
    (rest : list JobSchema.t) :
  queue w = item :: rest →
  ∃ w',
    getNextQueueItem w = Ret (item, true) w'
    ∧ queue w' = rest
    ∧ trace w' = trace w ++ [EvQueueForget (Some item); EvQueueDone (Some item)].
Proof.
  intros Hq. exists (afterGet item rest w).
  split; [by apply getNextQueueItem_some|]. by split.
Qed.

Lemma getNextQueueItem_takes_head_witness :
  ∃ w',
    getNextQueueItem (Scenario.world Scenario.fiveRecords (Some 0%nat))
      = Ret (Scenario.record "r1", true) w'
    ∧ length (queue w') = 4%nat.
Proof.
  destruct (getNextQueueItem_takes_head
              (Scenario.world Scenario.fiveRecords (Some 0%nat))
              (Scenario.record "r1") (tail Scenario.fiveRecords) eq_refl)
    as (w' & Hrun & Hq & _).
  exists w'. split; [exact Hrun|]. by rewrite Hq.
Defined.



Lemma hands_trans w1 w2 w3 ds1 ds2 :
  hands w1 w2 ds1 → hands w2 w3 ds2 → hands w1 w3 (ds1 ++ ds2).
Proof.
  intros (d1 & Ht1 & Hd1 & Hs1 & Ha1 & Hb1 & Hc1)
         (d2 & Ht2 & Hd2 & Hs2 & Ha2 & Hb2 & Hc2).
  exists (d1 ++ d2). unfold deliveries, startedBTs in *.
  rewrite List.filter_app, omap_app, Hd1, Hd2, Hs1, Hs2, Ht2, Ht1.
  rewrite app_assoc. repeat split; congruence.
Qed.

Lemma postJobRecords_hands pw batch w :
  ∃ w', postJobRecords pw batch w = Ret () w'
    ∧ hands w w'
        (if marshalDataOk w && marshalSchemaOk w
         then [EvPostAppDEvents (m.JobSchemaName (Bag pw)) batch] else []).
Proof.
  unfold postJobRecords, json_Marshal_records, json_Marshal_schemaDef,
    SchemaExists, CreateSchema, hands.
  go_unfold. cbn.
  destruct (marshalDataOk w) eqn:Hd, (marshalSchemaOk w) eqn:Hs; cbn;
    try (eexists; split; [reflexivity|]; eexists; rewrite <- ?app_assoc;
         (split; [reflexivity|by repeat split])).
  destruct (bool_decide _); cbn.
  - eexists; split; [reflexivity|]; eexists; rewrite <- ?app_assoc.
    split; [reflexivity|by repeat split].
  - destruct (createOk w); cbn;
      eexists; (split; [reflexivity|]); eexists; rewrite <- ?app_assoc;
      (split; [reflexivity|by repeat split]).
Qed.

Lemma afterGet_hands item rest w :
  hands w (afterGet item rest w) (takenOff [item]).
Proof.
  exists [EvQueueForget (Some item); EvQueueDone (Some item)].
  unfold afterGet. cbn.
  destruct (stop_signal_backend w) as (_ & _ & -> & ->).
  repeat split. unfold stop_signal. by destruct (stopIn w) as [[|k]|].
Qed.

Lemma takenOff_app a b : takenOff (a ++ b) = takenOff a ++ takenOff b.
Proof. unfold takenOff. apply bind_app. Qed.

Lemma flushLoop_hands pw q : ∀ acc w,
  queue w = q → q ≠ [] →
  let k := batchSize (length q) (length acc) (m.EventAPILimit (Bag pw)) in
  ∃ w', flushLoop (length q) pw (Z.of_nat (length q)) acc w = Ret Returned w'
    ∧ hands w w'
        (takenOff (take k q) ++
         if marshalDataOk w && marshalSchemaOk w
         then [EvPostAppDEvents (m.JobSchemaName (Bag pw)) (acc ++ take k q)]
         else []).
Proof.
  induction q as [|item rest IH]; intros acc w Hq Hne k; [done|].
  subst k. cbn [length]. rewrite (flushLoop_step _ _ _ _ _ _ Hq).
  pose proof (afterGet_hands item rest w) as Hget.
  assert (Hflags : marshalDataOk (afterGet item rest w) = marshalDataOk w
                   ∧ marshalSchemaOk (afterGet item rest w) = marshalSchemaOk w).
  { destruct Hget as (? & _ & _ & _ & ? & ? & _). by split. }
  destruct Hflags as [Hmd Hms].
  destruct (bool_decide (Z.of_nat (length rest) = 0)
            || bool_decide (Z.of_nat (length (acc ++ [item]))
                            >= m.EventAPILimit (Bag pw))) eqn:Hcond.
  - rewrite batchSize_stop.
    2:{ apply orb_true_iff in Hcond as [H|H]; apply bool_decide_eq_true in H.
        - left. lia.
        - right. rewrite length_app in H. cbn in H. lia. }
    go_unfold.
    destruct (postJobRecords_hands pw (acc ++ [item])
                (set_trace (trace (afterGet item rest w) ++
                   [EvLog ("Sending " +:+ pretty (length (acc ++ [item]))
                             +:+ " records to AppD events API" +:+ nl)])
                   (afterGet item rest w)))
      as (w' & Hpost & Hh).
    rewrite Hpost. exists w'. split; [done|].
    destruct (stop_signal_backend w) as (_ & _ & Hmd' & Hms').
    cbn in Hh. rewrite Hmd', Hms' in Hh.
    change (take 1 (item :: rest)) with [item].
    eapply hands_trans; [exact Hget|].
    eapply (hands_trans _ _ _ []); [|exact Hh].
    eexists. split; [reflexivity|]. by repeat split.
  - apply orb_false_iff in Hcond as [Hrest Hlim].
    apply bool_decide_eq_false in Hrest, Hlim.
    rewrite length_app in Hlim. cbn in Hlim.
    rewrite batchSize_more by lia.
    destruct (IH (acc ++ [item]) (afterGet item rest w)) as
      (w' & Hrun & Hh); [done|by destruct rest|].
    rewrite length_app in Hh. cbn [length] in Hh.
    replace (length acc + 1)%nat with (S (length acc)) in Hh by lia.
    exists w'. split; [done|].
    rewrite Hmd, Hms, <- app_assoc in Hh. cbn [take].
    change (item :: take ?n rest) with ([item] ++ take n rest).
    rewrite takenOff_app, <- app_assoc.
    eapply hands_trans; [exact Hget|exact Hh].
Qed.

Lemma flushQueue_hands pw w :
  let k := batchSize (length (queue w)) 0 (m.EventAPILimit (Bag pw)) in
  ∃ w' rest,
    flushQueue pw w = Ret Returned w'
    ∧ trace w' = trace w ++ EvStartBT "FlushJobEventsQueue" (nextBT w) :: rest
    ∧ startedBTs rest = []
    ∧ nextBT w' = S (nextBT w)
    ∧ marshalDataOk w' = marshalDataOk w
    ∧ marshalSchemaOk w' = marshalSchemaOk w
    ∧ deliveries rest =
        if decide (queue w = []) then []
        else takenOff (take k (queue w)) ++
             if marshalDataOk w && marshalSchemaOk w
             then [EvPostAppDEvents (m.JobSchemaName (Bag pw)) (take k (queue w))]
             else [].
Proof.
  intros k. subst k. unfold flushQueue, StartBT, WQ_Len. go_unfold. cbn.
  destruct (queue w) as [|item rest] eqn:Hq.
  - cbn. eexists _, _. split; [reflexivity|]. cbn.
    rewrite <- app_assoc. split; [reflexivity|]. by cbn.
  - rewrite bool_decide_false by (cbn; lia).
    rewrite Nat2Z.id.
    match goal with
    | |- context [flushLoop _ pw _ [] ?x] =>
        destruct (flushLoop_hands pw (item :: rest) [] x)
          as (w' & Hrun & (delta & Ht & Hd & Hs & Hmd & Hms & Hbt));
          [by cbn|done|]
    end.
    rewrite Hrun. cbn in Ht, Hd, Hmd, Hms, Hbt |- *.
    exists w'. eexists. split; [reflexivity|].
    rewrite Ht, <- !app_assoc. split; [reflexivity|].
    cbn. by repeat split.
Qed.

End QueueItems.

Section Ticks.

Lemma batchSize_stride (n : nat) (L : Z) :
  batchSize n 0 L = Nat.min n (stride L).
Proof. unfold batchSize, stride. do 3 f_equal. lia. Qed.

(** X13.  A flush tick over a non-empty queue handles the records in queue
    order: each of the first min(n, max(1, L)) records is passed to [Forget]
    and then to [Done], one record after the other, and only then is the
    batch posted (if marshalling succeeds); no other record is forgotten,
    done or posted. *)
Theorem flush_tick_deliveries (pw : JobsWorker) (w : World) :
  queue w ≠ [] →
  let batch := take (Nat.min (length (queue w)) (stride (m.EventAPILimit (Bag pw))))
                 (queue w) in
  ∃ w' delta,
    flushQueue pw w = Ret Returned w'
    ∧ trace w' = trace w ++ delta
    ∧ deliveries delta =
        takenOff batch ++
        if marshalDataOk w && marshalSchemaOk w
        then [EvPostAppDEvents (m.JobSchemaName (Bag pw)) batch] else [].
Proof.
  intros Hne batch.
  destruct (flushQueue_hands pw w) as (w' & rest & Hrun & Ht & _ & _ & _ & _ & Hd).
  rewrite decide_False, batchSize_stride in Hd by done.
  by exists w', (EvStartBT "FlushJobEventsQueue" (nextBT w) :: rest).
Qed.

Lemma flush_tick_deliveries_witness :
  ∃ w' delta,
    flushQueue (Scenario.workerWithLimit 2)
      (Scenario.world Scenario.fiveRecords None) = Ret Returned w'
    ∧ trace w' = delta
    ∧ deliveries delta =
        [EvQueueForget (Some (Scenario.record "r1"));
         EvQueueDone (Some (Scenario.record "r1"));
         EvQueueForget (Some (Scenario.record "r2"));
         EvQueueDone (Some (Scenario.record "r2"));
         EvPostAppDEvents "jobs" [Scenario.record "r1"; Scenario.record "r2"]].
Proof.
  destruct (flush_tick_deliveries (Scenario.workerWithLimit 2)
              (Scenario.world Scenario.fiveRecords None))
    as (w' & delta & Hrun & Ht & Hd); [discriminate|].
  exists w', delta.
  split; [exact Hrun|]. split; [exact Ht|exact Hd].
Defined.

(** X14.  When marshalling fails, [postJobRecords] makes no backend call,
    and a flush tick still takes its batch off the queue: the records are
    dropped, neither posted nor left for the next tick. *)
Theorem marshal_failure_drops_batch (pw : JobsWorker) (w : World) :
  marshalDataOk w && marshalSchemaOk w = false →
  (∀ objList, ∃ w' delta,
     postJobRecords pw objList w = Ret () w'
     ∧ trace w' = trace w ++ delta
     ∧ network_calls delta = []
     ∧ queue w' = queue w)
  ∧ ∃ w' delta,
      flushQueue pw w = Ret Returned w'
      ∧ trace w' = trace w ++ delta
      ∧ network_calls delta = []
      ∧ queue w' = drop (stride (m.EventAPILimit (Bag pw))) (queue w).
Proof.
  intros Hfail. split.
  - intros objList.
    destruct (postJobRecords_spec pw objList w)
      as (w' & Hrun & Hq & _ & (delta & Ht & Hn & _)).
    exists w', delta. unfold postCalls in Hn. rewrite Hfail in Hn.
    by repeat split.
  - destruct (flushQueue_spec pw w)
      as (w' & rest & Hrun & Ht & _ & _ & Hq & _ & Hn).
    exists w', (EvStartBT "FlushJobEventsQueue" (nextBT w) :: rest).
    split; [done|]. split; [done|]. split.
    + unfold postCalls in Hn. rewrite Hfail in Hn. cbn. by case_decide.
    + rewrite Hq, batchSize_stride.
      destruct (Nat.min_spec (length (queue w)) (stride (m.EventAPILimit (Bag pw))))
        as [[Hlt ->]|[Hle ->]]; [|done].
      by rewrite !drop_ge by lia.
Qed.

Lemma marshal_failure_drops_batch_witness :
  let w := mkWorld Scenario.fiveRecords false None (λ _, 0) 0 0 ∅ true false true [] in
  ∃ w' delta,
    flushQueue (Scenario.workerWithLimit 3) w = Ret Returned w'
    ∧ trace w' = delta
    ∧ network_calls delta = []
    ∧ queue w' = [Scenario.record "r4"; Scenario.record "r5"].
Proof.
  intros w.
  destruct (marshal_failure_drops_batch (Scenario.workerWithLimit 3) w eq_refl)
    as (_ & w' & delta & Hrun & Ht & Hn & Hq).
  exists w', delta.
  split; [exact Hrun|]. split; [exact Ht|]. split; [exact Hn|exact Hq].
Defined.

Lemma flushQueue_tick pw w :
  let s := stride (m.EventAPILimit (Bag pw)) in
  ∃ w' delta,
    flushQueue pw w = Ret Returned w'
    ∧ trace w' = trace w ++ delta
    ∧ queue w' = drop s (queue w)
    ∧ (marshalDataOk w && marshalSchemaOk w = true →
       concat (posted delta) = take s (queue w))
    ∧ startedBTs delta = [nextBT w]
    ∧ stopBT_calls delta = []
    ∧ nextBT w' = S (nextBT w)
    ∧ marshalDataOk w' = marshalDataOk w
    ∧ marshalSchemaOk w' = marshalSchemaOk w.
Proof.
  intros s.
  destruct (flushQueue_spec pw w)
    as (w' & rest & Hrun & Ht & Hb & _ & Hq & _ & Hn).
  destruct (flushQueue_hands pw w)
    as (w2 & rest2 & Hrun2 & Ht2 & Hs & Hbt & Hmd & Hms & _).
  rewrite Hrun in Hrun2. injection Hrun2 as <-.
  rewrite Ht in Ht2. apply app_inv_head in Ht2. injection Ht2 as <-.
  rewrite batchSize_stride in Hq, Hn. fold s in Hq, Hn.
  assert (Htake : take (length (queue w) `min` s) (queue w) = take s (queue w)).
  { destruct (Nat.min_spec (length (queue w)) s) as [[Hlt ->]|[Hle ->]]; [|done].
    by rewrite !take_ge by lia. }
  assert (Hdrop : drop (length (queue w) `min` s) (queue w) = drop s (queue w)).
  { destruct (Nat.min_spec (length (queue w)) s) as [[Hlt ->]|[Hle ->]]; [|done].
    by rewrite !drop_ge by lia. }
  rewrite Htake in Hn. rewrite Hdrop in Hq.
  exists w', (EvStartBT "FlushJobEventsQueue" (nextBT w) :: rest).
  repeat split; try done.
  - intros Hok. apply andb_true_iff in Hok as [Hd1 Hd2].
    change (concat (posted rest) = take s (queue w)).
    rewrite <- posted_network_calls, Hn.
    case_decide as Hnil.
    + by rewrite Hnil, take_nil.
    + rewrite Hd1, Hd2, posted_postCalls. cbn. apply app_nil_r.
  - change (nextBT w :: startedBTs rest = [nextBT w]). by rewrite Hs.
Qed.

(** X15.  The flush loop neither loses nor repeats a record: after [t] ticks
    and the stop signal it has returned, the queue has lost its first
    t * max(1, L) records, and (marshalling succeeding) the batches posted,
    put end to end, are exactly those records in queue order.  Each tick has
    started one more business transaction and none has been stopped. *)
Theorem eventQueueTicker_drains (pw : JobsWorker) (t : nat) (w : World) :
  marshalDataOk w = true → marshalSchemaOk w = true →
  let s := stride (m.EventAPILimit (Bag pw)) in
  ∃ w' delta,
    eventQueueTicker pw (replicate t Tick ++ [Stop]) w = Ret () w'
    ∧ trace w' = trace w ++ delta
    ∧ queue w' = drop (t * s) (queue w)
    ∧ concat (posted delta) = take (t * s) (queue w)
    ∧ startedBTs delta = seq (nextBT w) t
    ∧ stopBT_calls delta = [].
Proof.
  intros Hd Hs s. revert w Hd Hs.
  induction t as [|t IH]; intros w Hd Hs.
  - exists w, []. cbn. rewrite app_nil_r, drop_0. by repeat split.
  - cbn [replicate app eventQueueTicker]. unfold mbind, Go_bind.
    destruct (flushQueue_tick pw w)
      as (w1 & d1 & Hrun & Ht1 & Hq1 & Hp1 & Hs1 & Hb1 & Hbt1 & Hmd & Hms).
    rewrite Hrun.
    destruct (IH w1) as (w' & d2 & Hrun2 & Ht2 & Hq2 & Hp2 & Hs2 & Hb2);
      [congruence..|].
    exists w', (d1 ++ d2). split; [exact Hrun2|].
    fold s in Hq1, Hp1.
    rewrite Hd, Hs in Hp1. specialize (Hp1 eq_refl).
    split; [by rewrite Ht2, Ht1, app_assoc|].
    split; [by rewrite Hq2, Hq1, drop_drop|].
    unfold posted, startedBTs, stopBT_calls in *.
    rewrite !omap_app, concat_app, List.filter_app.
    rewrite Hp1, Hp2, Hq1, Hs1, Hs2, Hb1, Hb2, Hbt1.
    split; [apply take_take_drop|]. by split.
Qed.

Lemma eventQueueTicker_drains_witness :
  ∃ w' delta,
    eventQueueTicker (Scenario.workerWithLimit 2) [Tick; Tick; Tick; Stop]
      (Scenario.world Scenario.fiveRecords None) = Ret () w'
    ∧ trace w' = delta
    ∧ queue w' = []
    ∧ concat (posted delta) = Scenario.fiveRecords
    ∧ startedBTs delta = [0; 1; 2]%nat
    ∧ stopBT_calls delta = [].
Proof.
  destruct (eventQueueTicker_drains (Scenario.workerWithLimit 2) 3
              (Scenario.world Scenario.fiveRecords None) eq_refl eq_refl)
    as (w' & delta & Hrun & Ht & Hq & Hp & Hs & Hb).
  exists w', delta.
  split; [exact Hrun|]. split; [exact Ht|]. split; [exact Hq|].
  split; [exact Hp|]. split; [exact Hs|exact Hb].
Defined.

End Ticks.

Section MetricTicks.

Lemma observed_calls (t : list Event) :
  postedMetrics (calls t) = postedMetrics t
  ∧ startedBTs (calls t) = startedBTs t
  ∧ stopBT_calls (calls t) = stopBT_calls t.
Proof.
  unfold postedMetrics, startedBTs, stopBT_calls, calls.
  induction t as [|e t (IH1 & IH2 & IH3)]; [done|].
  destruct e; cbn; by rewrite ?IH1, ?IH2, ?IH3.
Qed.

Lemma withStore_informer objs pw :
  is_Some (informer pw) →
  ∃ i, informer (withStore objs pw) = Some i ∧ store i = objs.
Proof.
  intros [i Hi]. unfold withStore. rewrite Hi. cbn. by eexists.
Qed.

Lemma buildAppDMetrics_tick pw w i :
  informer pw = Some i → forallb passable (store i) = true →
  ∃ pw' w' delta,
    buildAppDMetrics pw w = Ret pw' w'
    ∧ informer pw' = Some i
    ∧ trace w' = trace w ++ delta
    ∧ postedMetrics delta = [builAppDMetricsList pw']
    ∧ startedBTs delta = [nextBT w]
    ∧ stopBT_calls delta = [EvStopBT (nextBT w)]
    ∧ nextBT w' = S (nextBT w).
Proof.
  intros Hi Hok.
  destruct (buildAppDMetrics_returns pw w) as [Hret _]. rewrite Hi, Hok in Hret.
  destruct (buildAppDMetrics pw w) as [pw' w'|msg w'|w'] eqn:Hrun; try done.
  destruct (buildAppDMetrics_trace _ _ _ _ Hrun)
    as (l1 & l2 & l3 & Ht & _ & Hbt).
  destruct (buildAppDMetrics_map _ _ _ _ Hrun) as (i' & Hi' & Hi'' & _).
  rewrite Hi in Hi'. injection Hi' as <-.
  eexists pw', w', _. split; [done|]. split; [done|].
  split; [exact Ht|]. by repeat split.
Qed.

(** X16.  The metrics loop makes one pass per tick: as long as, at every
    tick, the cache holds only jobs with all dereferenced pointers set, it
    returns at the stop signal having posted one metric list per tick and
    having started and stopped one business transaction per tick. *)
Theorem appMetricTicker_posts_per_tick (pw : JobsWorker)
    (snapshots : list (list Object)) (w : World) :
  is_Some (informer pw) →
  Forall (λ objs, forallb passable objs = true) snapshots →
  ∃ pw' w' delta,
    appMetricTicker pw ((CacheTick <$> snapshots) ++ [CacheStop]) w = Ret pw' w'
    ∧ trace w' = trace w ++ delta
    ∧ length (postedMetrics delta) = length snapshots
    ∧ startedBTs delta = seq (nextBT w) (length snapshots)
    ∧ stopBT_calls delta = EvStopBT <$> seq (nextBT w) (length snapshots).
Proof.
  intros Hinf Hall. revert pw w Hinf.
  induction Hall as [|objs snapshots Hobjs _ IH]; intros pw w Hinf.
  - exists pw, w, []. cbn. by rewrite app_nil_r.
  - cbn [fmap list_fmap app appMetricTicker]. unfold mbind, Go_bind.
    destruct (withStore_informer objs pw Hinf) as (i & Hi & Hst).
    destruct (buildAppDMetrics_tick (withStore objs pw) w i Hi)
      as (pw1 & w1 & d1 & Hrun & Hi1 & Ht1 & Hp1 & Hs1 & Hb1 & Hbt1);
      [by rewrite Hst|].
    cbn [list_fmap] in *. rewrite Hrun.
    destruct (IH pw1 w1) as (pw' & w' & d2 & Hrun2 & Ht2 & Hp2 & Hs2 & Hb2);
      [by eexists|].
    exists pw', w', (d1 ++ d2). split; [exact Hrun2|].
    split; [by rewrite Ht2, Ht1, app_assoc|].
    unfold postedMetrics, startedBTs, stopBT_calls in *.
    rewrite !omap_app, List.filter_app, length_app.
    rewrite Hp1, Hp2, Hs1, Hs2, Hb1, Hb2, Hbt1. by repeat split.
Qed.

Lemma appMetricTicker_posts_per_tick_witness :
  ∃ pw' w' delta,
    appMetricTicker (Scenario.workerOn [])
      [CacheTick Scenario.snapshot; CacheTick []; CacheStop]
      (Scenario.world [] None) = Ret pw' w'
    ∧ trace w' = delta
    ∧ length (postedMetrics delta) = 2%nat
    ∧ startedBTs delta = [0; 1]%nat
    ∧ stopBT_calls delta = [EvStopBT 0%nat; EvStopBT 1%nat].
Proof.
  destruct (appMetricTicker_posts_per_tick (Scenario.workerOn [])
              [Scenario.snapshot; []] (Scenario.world [] None))
    as (pw' & w' & delta & Hrun & Ht & Hp & Hs & Hb).
  - by eexists.
  - repeat constructor.
  - exists pw', w', delta.
    split; [exact Hrun|]. split; [exact Ht|]. split; [exact Hp|].
    split; [exact Hs|exact Hb].
Defined.

(** X17.  A tick at which the cache holds an object the pass cannot get
    through ends the metrics loop: the panic of the pass is the panic of the
    loop, whatever signals would follow, and the trace ends with the line the
    pass printed first. *)
Theorem appMetricTicker_dies_with_the_pass (pw : JobsWorker)
    (objs : list Object) (signals : list CacheSignal) (w : World) :
  is_Some (informer pw) →
  forallb passable objs = false →
  panics (appMetricTicker pw (CacheTick objs :: signals) w) = true
  ∧ trace (world_of (appMetricTicker pw (CacheTick objs :: signals) w))
    = trace w ++ [EvStartBT "SendJobMetrics" (nextBT w);
                  EvLog ("Time to send job metrics. Current cache:" +:+ nl)].
Proof.
  intros Hinf Hbad.
  destruct (withStore_informer objs pw Hinf) as (i & Hi & Hst).
  destruct (buildAppDMetrics_returns (withStore objs pw) w) as [_ Hp].
  rewrite Hi, Hst, Hbad in Hp.
  pose proof (buildAppDMetrics_panic_trace (withStore objs pw) w Hp) as Ht.
  cbn [appMetricTicker]. unfold mbind, Go_bind.
  by destruct (buildAppDMetrics (withStore objs pw) w).
Qed.

Lemma appMetricTicker_dies_with_the_pass_witness :
  panics (appMetricTicker (Scenario.workerOn [])
            [CacheTick [ObjJob Scenario.jobWithoutDeadline];
             CacheTick Scenario.snapshot; CacheStop]
            (Scenario.world [] None)) = true.
Proof.
  apply (appMetricTicker_dies_with_the_pass (Scenario.workerOn [])
           [ObjJob Scenario.jobWithoutDeadline]
           [CacheTick Scenario.snapshot; CacheStop] (Scenario.world [] None)).
  - by eexists.
  - reflexivity.
Defined.



(** X19.  [NewJobsWorker] always returns: the worker has the given bag, an
    empty summary map and a new, empty queue; it has an informer exactly when
    the batch client accepted the configuration, and that informer's cache
    starts empty and not synced. *)
Theorem NewJobsWorker_result (bag : m.AppDBag) (config : RestConfig) (w : World) :
  ∃ pw w',
    NewJobsWorker bag config w = Ret pw w'
    ∧ Bag pw = bag ∧ K8sConfig pw = config ∧ SummaryMap pw = ∅
    ∧ queue w' = [] ∧ shuttingDown w' = false
    ∧ (is_Some (informer pw) ↔ batchClientError config = None)
    ∧ (∀ i, informer pw = Some i → store i = [] ∧ synced i = false)
    ∧ calls (trace w') = calls (trace w).
Proof.
  unfold NewJobsWorker, initJobInformer, WQ_New. go_unfold. cbn.
  destruct (batchClientError config) as [err|]; cbn.
  - eexists _, _. split; [reflexivity|]. cbn.
    repeat split; try done; try (by intros [? ?]).
    unfold calls. rewrite List.filter_app. cbn. by rewrite app_nil_r.
  - eexists _, _. split; [reflexivity|]. cbn.
    repeat split; try done; try (by eexists); by simplify_eq.
Qed.

Lemma NewJobsWorker_result_witness :
  ∃ pw w',
    NewJobsWorker Scenario.bag Scenario.config (Scenario.world Scenario.fiveRecords None)
      = Ret pw w'
    ∧ is_Some (informer pw)
    ∧ queue w' = [].
Proof.
  destruct (NewJobsWorker_result Scenario.bag Scenario.config
              (Scenario.world Scenario.fiveRecords None))
    as (pw & w' & Hrun & _ & _ & _ & Hq & _ & Hi & _).
  exists pw, w'. split; [exact Hrun|]. split; [|exact Hq].
  apply Hi. reflexivity.
Defined.

End MetricTicks.
